(** * Notebook tree and its exporters (Visitor pattern in TypeScript)

    A shallow embedding of [Source/Tree.ts], [Source/Notebook.ts],
    [Source/Export.ts] and the demo driver.  Objects live in a store
    addressed by allocation index; object identity ([===], used by
    [Array.prototype.indexOf]) is equality of addresses.  Methods are
    computations in a small state-and-error monad over that store. *)

From Stdlib Require Import ZArith String List Lia.
From stdpp Require Import base option list strings.

Local Open Scope Z_scope.
Local Open Scope nat_scope.

(** ** A state-and-error monad *)

Definition Run (S A : Type) : Type := S → option (A * S).

Definition ret {S A} (a : A) : Run S A := λ s, Some (a, s).
Definition bind {S A B} (m : Run S A) (f : A → Run S B) : Run S B := λ s,
  match m s with
  | Some (a, s') => f a s'
  | None => None
  end.

Declare Scope run_scope.
Delimit Scope run_scope with run.
Notation "x ← y ; z" := (bind y (λ x, z))
  (at level 20, y at level 100, z at level 200, only parsing) : run_scope.
Notation "x ;; z" := (bind x (λ _, z))
  (at level 100, z at level 200, only parsing, right associativity) : run_scope.
Open Scope run_scope.

Definition get {S} : Run S S := λ s, Some (s, s).
Definition put {S} (s : S) : Run S unit := λ _, Some (tt, s).
Definition throw {S A} : Run S A := λ _, None.

(** [for (const x of xs) body(x)] over the elements read when the loop
    starts. *)
Fixpoint for_of {S A} (xs : list A) (body : A → Run S unit) : Run S unit :=
  match xs with
  | [] => ret tt
  | x :: xs' => body x ;; for_of xs' body
  end.

(** ** The object store *)

Definition loc := nat.

(** The concrete classes of [Notebook.ts] with their public attributes. *)
Inductive NodeClass :=
| Notebook (title : string)
| Page (title : string)
| ImageCell (imageUrl : string)
| SourceCodeCell (sourceCode : string)
| TextCell (text : string).

(** An instance of [TypedNode]: the private field [_parent] of [Node]
    ([None] for [undefined]/[null]), the private array [_children] and the
    attributes of the concrete class. *)
Record Node := mkNode {
  _parent : option loc;
  _children : list loc;
  cls : NodeClass
}.

Abbreviation Heap := (list Node).

Definition deref (n : loc) : Run Heap Node := λ h,
  match h !! n with
  | Some o => Some (o, h)
  | None => None
  end.

Definition set_children (n : loc) (cs : list loc) : Run Heap unit :=
  o ← deref n;
  h ← get;
  put (<[n := mkNode (_parent o) cs (cls o)]> h).

Definition alloc (o : Node) : Run Heap loc := λ h, Some (length h, h ++ [o]).

(** ** Tree.ts: Node and TypedNode *)

(** [get parent()] *)
Definition parent (this : loc) : Run Heap (option loc) :=
  o ← deref this; ret (_parent o).

(** [get children()] *)
Definition children (this : loc) : Run Heap (list loc) :=
  o ← deref this; ret (_children o).

(** [Array.prototype.indexOf(child, 0)]: index of the first element
    identical to [child], [-1] when there is none. *)
Fixpoint indexOf (l : list loc) (child : loc) (from : Z) : Z :=
  match l with
  | [] => (-1)%Z
  | x :: l' => if decide (x = child) then from else indexOf l' child (from + 1)%Z
  end.

Definition getIndexOfChild (this child : loc) : Run Heap Z :=
  cs ← children this; ret (indexOf cs child 0).

(** [splice(index, 1)] on an index in range. *)
Definition splice1 (l : list loc) (index : Z) : list loc :=
  delete (Z.to_nat index) l.

Definition removeChild (this child : loc) : Run Heap unit :=
  index ← getIndexOfChild this child;
  if (index <? 0)%Z then ret tt
  else cs ← children this; set_children this (splice1 cs index).

Definition addChild (this item : loc) : Run Heap unit :=
  index ← getIndexOfChild this item;
  if (index >=? 0)%Z then ret tt
  else cs ← children this; set_children this (cs ++ [item]).

(** [set parent(value)]: both branches test truthiness, and neither
    assigns [_parent]. *)
Definition set_parent (this : loc) (value : option loc) : Run Heap unit :=
  old ← parent this;
  match old with
  | Some p => removeChild p this
  | None => ret tt
  end ;;
  match value with
  | Some v => addChild v this
  | None => ret tt
  end.

(** [new C(...)]: the constructor chain reaches [Node]'s constructor, which
    runs [this.parent = parent]; the field initialiser [_children = []] and
    the parameter properties are assigned once [super] returns.  The setter
    touches [_children] of [value] only, and [value] is an object built
    earlier, so allocating the finished object first is the same
    computation. *)
Definition new_node (c : NodeClass) (parent_arg : option loc) : Run Heap loc :=
  this ← alloc (mkNode None [] c);
  set_parent this parent_arg ;;
  ret this.

(** ** Notebook.ts: the domain model *)

Definition new_Notebook (title : string) : Run Heap loc :=
  new_node (Notebook title) None.
Definition new_Page (parent_arg : loc) (title : string) : Run Heap loc :=
  new_node (Page title) (Some parent_arg).
Definition new_ImageCell (imageUrl : string) : Run Heap loc :=
  new_node (ImageCell imageUrl) None.
Definition new_SourceCodeCell (sourceCode : string) : Run Heap loc :=
  new_node (SourceCodeCell sourceCode) None.
Definition new_TextCell (text : string) : Run Heap loc :=
  new_node (TextCell text) None.

(** [get pages()] and [get cells()] return [this.children]. *)
Definition pages (this : loc) : Run Heap (list loc) := children this.
Definition cells (this : loc) : Run Heap (list loc) := children this.

(** [Notebook.createPage]: a method of [Notebook] only. *)
Definition createPage (this : loc) (title : string) : Run Heap loc :=
  o ← deref this;
  match cls o with
  | Notebook _ => new_Page this title
  | _ => throw
  end.

(** [Page.addCell]: a method of [Page] only. *)
Definition addCell (this cell : loc) : Run Heap unit :=
  o ← deref this;
  match cls o with
  | Page _ => set_parent cell (Some this)
  | _ => throw
  end.

(** ** Export.ts: the exporter capability and the two exporters *)

Definition LF : string := String (Ascii.ascii_of_nat 10) EmptyString.
Definition DQ : string := String (Ascii.ascii_of_nat 34) EmptyString.

(** An exporter operation runs on the tree and on the exporter object. *)
Definition Visit (E : Type) : Type := Run (Heap * E) unit.

(** Node code run from inside an exporter operation. *)
Definition tree {E A} (m : Run Heap A) : Run (Heap * E) A := λ s,
  match m s.1 with
  | Some (a, h') => Some (a, (h', s.2))
  | None => None
  end.

Definition title (this : loc) : Run Heap string :=
  o ← deref this;
  match cls o with
  | Notebook t | Page t => ret t
  | _ => throw
  end.
Definition imageUrl (this : loc) : Run Heap string :=
  o ← deref this;
  match cls o with ImageCell u => ret u | _ => throw end.
Definition sourceCode (this : loc) : Run Heap string :=
  o ← deref this;
  match cls o with SourceCodeCell c => ret c | _ => throw end.
Definition text (this : loc) : Run Heap string :=
  o ← deref this;
  match cls o with TextCell t => ret t | _ => throw end.

(** [interface NodeExporter].  The two entry operations call
    [child.export(this)], a late-bound method of the child: it is their
    first argument. *)
Class NodeExporter (E : Type) := {
  exportNotebook : (loc → Visit E) → loc → Visit E;
  exportPage : (loc → Visit E) → loc → Visit E;
  exportImageCell : loc → Visit E;
  exportSourceCodeCell : loc → Visit E;
  exportTextCell : loc → Visit E
}.

Module HtmlExporter.
Record t := mk { _html : string }.

Definition new : t := mk EmptyString.
Definition html (this : t) : string := _html this.

Definition appendHtmlLine (html : string) : Visit t := λ s,
  Some (tt, (s.1, mk (_html s.2 +:+ (LF +:+ html)))).

Definition exportNotebook (export : loc → Visit t) (notebook : loc) : Visit t :=
  appendHtmlLine ("<main class=" +:+ DQ +:+ "notebook" +:+ DQ +:+ ">") ;;
  ttl ← tree (title notebook);
  appendHtmlLine ("<h1>" +:+ ttl +:+ "</h1>") ;;
  ps ← tree (pages notebook);
  for_of ps export ;;
  appendHtmlLine "</main>".

Definition exportPage (export : loc → Visit t) (page : loc) : Visit t :=
  appendHtmlLine ("<section class=" +:+ DQ +:+ "page" +:+ DQ +:+ ">") ;;
  ttl ← tree (title page);
  appendHtmlLine ("<h2>" +:+ ttl +:+ "</h2>") ;;
  cs ← tree (cells page);
  for_of cs export ;;
  appendHtmlLine "</section>".

Definition exportTextCell (cell : loc) : Visit t :=
  x ← tree (text cell);
  appendHtmlLine ("<p>" +:+ x +:+ "</p>").

Definition exportSourceCodeCell (cell : loc) : Visit t :=
  x ← tree (sourceCode cell);
  appendHtmlLine ("<code>" +:+ x +:+ "</code>").

Definition exportImageCell (cell : loc) : Visit t :=
  x ← tree (imageUrl cell);
  appendHtmlLine ("<img src=" +:+ DQ +:+ x +:+ DQ +:+ ">").
End HtmlExporter.

Global Instance HtmlExporter_NodeExporter : NodeExporter HtmlExporter.t := {
  exportNotebook := HtmlExporter.exportNotebook;
  exportPage := HtmlExporter.exportPage;
  exportImageCell := HtmlExporter.exportImageCell;
  exportSourceCodeCell := HtmlExporter.exportSourceCodeCell;
  exportTextCell := HtmlExporter.exportTextCell
}.

Module XmlExporter.
Record t := mk { _xml : string }.

Definition preamble : string :=
  "<?xml version=" +:+ DQ +:+ "1.0" +:+ DQ +:+ " encoding=" +:+ DQ +:+ "UTF-8"
    +:+ DQ +:+ "?>".

Definition new : t := mk preamble.
Definition xml (this : t) : string := _xml this.

Definition appendXmlLine (xml : string) : Visit t := λ s,
  Some (tt, (s.1, mk (_xml s.2 +:+ (LF +:+ xml)))).

Definition exportNotebook (export : loc → Visit t) (notebook : loc) : Visit t :=
  ttl ← tree (title notebook);
  appendXmlLine ("<notebook title=" +:+ DQ +:+ ttl +:+ DQ +:+ ">") ;;
  ps ← tree (pages notebook);
  for_of ps export ;;
  appendXmlLine "</notebook>".

Definition exportPage (export : loc → Visit t) (page : loc) : Visit t :=
  ttl ← tree (title page);
  appendXmlLine ("<page title=" +:+ DQ +:+ ttl +:+ DQ +:+ ">") ;;
  cs ← tree (cells page);
  for_of cs export ;;
  appendXmlLine "</page>".

Definition exportTextCell (cell : loc) : Visit t :=
  x ← tree (text cell);
  appendXmlLine ("<text>" +:+ x +:+ "</text>").

Definition exportSourceCodeCell (cell : loc) : Visit t :=
  x ← tree (sourceCode cell);
  appendXmlLine ("<code>" +:+ x +:+ "</code>").

Definition exportImageCell (cell : loc) : Visit t :=
  x ← tree (imageUrl cell);
  appendXmlLine ("<image url=" +:+ DQ +:+ x +:+ DQ +:+ " />").
End XmlExporter.

Global Instance XmlExporter_NodeExporter : NodeExporter XmlExporter.t := {
  exportNotebook := XmlExporter.exportNotebook;
  exportPage := XmlExporter.exportPage;
  exportImageCell := XmlExporter.exportImageCell;
  exportSourceCodeCell := XmlExporter.exportSourceCodeCell;
  exportTextCell := XmlExporter.exportTextCell
}.

(** [node.export(exporter)]: each concrete class forwards itself to the
    exporter operation named after it.  The recursion between [export] and
    the entry operations is bounded by [fuel], the call depth. *)
Fixpoint export {E} `{NodeExporter E} (fuel : nat) (this : loc) : Visit E :=
  match fuel with
  | 0 => throw
  | S fuel' =>
    o ← tree (deref this);
    match cls o with
    | Notebook _ => exportNotebook (export fuel') this
    | Page _ => exportPage (export fuel') this
    | ImageCell _ => exportImageCell this
    | SourceCodeCell _ => exportSourceCodeCell this
    | TextCell _ => exportTextCell this
    end
  end.

(** ** The demo driver *)

Definition demo (logo : string) : Run Heap loc :=
  notebook ← new_Notebook "My Coding Ideas";
  page1 ← createPage notebook "First Page";
  c1 ← new_ImageCell logo; addCell page1 c1 ;;
  c2 ← new_SourceCodeCell "alert('Hello, World!');"; addCell page1 c2 ;;
  c3 ← new_TextCell "Hello, World!"; addCell page1 c3 ;;
  page2 ← createPage notebook "Second Page";
  c4 ← new_TextCell "Bye, World!"; addCell page2 c4 ;;
  ret notebook.

(** [notebook.export(exporter)] on the demo tree, then the exporter. *)
Definition demo_export {E} `{NodeExporter E} (logo : string) (fresh : E)
    (fuel : nat) : option E :=
  match demo logo [] with
  | Some (notebook, h) =>
      match export fuel notebook (h, fresh) with
      | Some (_, s) => Some s.2
      | None => None
      end
  | None => None
  end.

(** ** Programs over the tree: the public mutating operations *)

Inductive Op :=
| NewNotebook (title : string)
| NewImageCell (imageUrl : string)
| NewSourceCodeCell (sourceCode : string)
| NewTextCell (text : string)
| CreatePage (notebook : loc) (title : string)
| AddCell (page cell : loc)
| SetParent (node : loc) (value : option loc).

Definition step (op : Op) : Run Heap unit :=
  match op with
  | NewNotebook t => _ ← new_Notebook t; ret tt
  | NewImageCell u => _ ← new_ImageCell u; ret tt
  | NewSourceCodeCell c => _ ← new_SourceCodeCell c; ret tt
  | NewTextCell t => _ ← new_TextCell t; ret tt
  | CreatePage n t => _ ← createPage n t; ret tt
  | AddCell p c => addCell p c
  | SetParent n v => set_parent n v
  end.

(** [h] is the store after the program [ops] ran from the empty store. *)
Definition built (ops : list Op) (h : Heap) : Prop :=
  for_of ops step [] = Some (tt, h).

(** The nodes below [n] form a finite tree of height less than [d]. *)
Fixpoint tree_below (d : nat) (h : Heap) (n : loc) : bool :=
  match d with
  | 0 => false
  | S d' =>
    match h !! n with
    | Some o => forallb (tree_below d' h) (_children o)
    | None => false
    end
  end.

Definition acyclic_from (h : Heap) (n : loc) : Prop :=
  ∃ d, tree_below d h n = true.

(** ** Scenarios on the tree *)

(** [c.parent = p; c.parent = q], then what the getters show. *)
Definition reparent_scenario
    : Run Heap (loc * loc * loc * list loc * list loc * option loc) :=
  nb ← new_Notebook "n";
  p ← createPage nb "p";
  q ← createPage nb "q";
  c ← new_TextCell "c";
  set_parent c (Some p) ;;
  set_parent c (Some q) ;;
  cp ← children p; cq ← children q; par ← parent c;
  ret (p, q, c, cp, cq, par).

(** [c.parent = p; c.parent = null], then [p.children]. *)
Definition detach_scenario : Run Heap (loc * loc * list loc) :=
  nb ← new_Notebook "n";
  p ← createPage nb "p";
  c ← new_TextCell "c";
  set_parent c (Some p) ;;
  set_parent c None ;;
  cp ← children p;
  ret (p, c, cp).

(** Cells [a] and [b] added to a page, then [a] detached and attached
    again to the same page. *)
Definition reattach_scenario : Run Heap (loc * loc * list loc) :=
  nb ← new_Notebook "n";
  p ← createPage nb "p";
  a ← new_TextCell "a";
  b ← new_TextCell "b";
  addCell p a ;;
  addCell p b ;;
  set_parent a None ;;
  set_parent a (Some p) ;;
  cs ← cells p;
  ret (a, b, cs).

(** The driver's program as a list of operations, followed by two parent
    assignments on the last cell. *)
Definition sample_ops : list Op :=
  [ NewNotebook "My Coding Ideas";
    CreatePage 0 "First Page";
    NewImageCell "https://x/logo.png"; AddCell 1 2;
    NewSourceCodeCell "alert('Hello, World!');"; AddCell 1 3;
    NewTextCell "Hello, World!"; AddCell 1 4;
    CreatePage 0 "Second Page";
    NewTextCell "Bye, World!"; AddCell 5 6;
    SetParent 6 None; SetParent 6 (Some 5) ].

Definition sample_heap : Heap :=
  Eval vm_compute in
    match for_of sample_ops step [] with
    | Some (_, h) => h
    | None => []
    end.

(** ** The output shape of the design document, section 4.4

    These definitions follow the document's words, not the code: the
    markers of each format, the line joiner and the line sequence of a
    subtree.  They are compared with [export] below. *)

Record Markup := {
  notebook_open : string → list string;
  notebook_close : string;
  page_open : string → list string;
  page_close : string;
  image_line : string → string;
  code_line : string → string;
  text_line : string → string
}.

Definition html_markup : Markup := {|
  notebook_open t :=
    ["<main class=" +:+ DQ +:+ "notebook" +:+ DQ +:+ ">"; "<h1>" +:+ t +:+ "</h1>"];
  notebook_close := "</main>";
  page_open t :=
    ["<section class=" +:+ DQ +:+ "page" +:+ DQ +:+ ">"; "<h2>" +:+ t +:+ "</h2>"];
  page_close := "</section>";
  image_line u := "<img src=" +:+ DQ +:+ u +:+ DQ +:+ ">";
  code_line c := "<code>" +:+ c +:+ "</code>";
  text_line t := "<p>" +:+ t +:+ "</p>"
|}.

Definition xml_markup : Markup := {|
  notebook_open t := ["<notebook title=" +:+ DQ +:+ t +:+ DQ +:+ ">"];
  notebook_close := "</notebook>";
  page_open t := ["<page title=" +:+ DQ +:+ t +:+ DQ +:+ ">"];
  page_close := "</page>";
  image_line u := "<image url=" +:+ DQ +:+ u +:+ DQ +:+ " />";
  code_line c := "<code>" +:+ c +:+ "</code>";
  text_line t := "<text>" +:+ t +:+ "</text>"
|}.

(** Every line is joined with a leading newline. *)
Fixpoint join_lines (ls : list string) : string :=
  match ls with
  | [] => EmptyString
  | l :: ls' => LF +:+ l +:+ join_lines ls'
  end.

Fixpoint all_lines (f : loc → option (list string)) (cs : list loc)
    : option (list string) :=
  match cs with
  | [] => Some []
  | c :: cs' =>
    match f c, all_lines f cs' with
    | Some l, Some ls => Some (l ++ ls)
    | _, _ => None
    end
  end.

(** The lines of the subtree under [n], to depth [fuel]. *)
Fixpoint subtree_lines (m : Markup) (fuel : nat) (h : Heap) (n : loc)
    : option (list string) :=
  match fuel with
  | 0 => None
  | S fuel' =>
    match h !! n with
    | None => None
    | Some o =>
      match cls o with
      | Notebook t =>
        match all_lines (subtree_lines m fuel' h) (_children o) with
        | Some ls => Some (notebook_open m t ++ ls ++ [notebook_close m])
        | None => None
        end
      | Page t =>
        match all_lines (subtree_lines m fuel' h) (_children o) with
        | Some ls => Some (page_open m t ++ ls ++ [page_close m])
        | None => None
        end
      | ImageCell u => Some [image_line m u]
      | SourceCodeCell c => Some [code_line m c]
      | TextCell t => Some [text_line m t]
      end
    end
  end.

(** The single line of a cell. *)
Definition cell_line (m : Markup) (h : Heap) (c : loc) : option string :=
  match h !! c with
  | Some o =>
    match cls o with
    | ImageCell u => Some (image_line m u)
    | SourceCodeCell s => Some (code_line m s)
    | TextCell t => Some (text_line m t)
    | _ => None
    end
  | None => None
  end.

(** ** The store invariant kept by every public operation *)

Record wf (h : Heap) : Prop := {
  wf_parent n o : h !! n = Some o → _parent o = None;
  wf_range n o c : h !! n = Some o → c ∈ _children o → c < length h;
  wf_nodup n o : h !! n = Some o → NoDup (_children o)
}.

(** What [addChild] does to the store. *)
Definition pushed (v n : loc) (ov : Node) (h : Heap) : Heap :=
  if decide (n ∈ _children ov) then h
  else <[v := mkNode (_parent ov) (_children ov ++ [n]) (cls ov)]> h.

(** What an exporter run amounts to: it fails, or it appends [join_lines]
    of a line sequence to the buffer and leaves the tree alone. *)
Definition emits {E} (buf : E → string) (mk : string → E)
    (r : option (unit * (Heap * E))) (h : Heap) (e : E)
    (ls : option (list string)) : Prop :=
  r = match ls with
      | Some ls => Some (tt, (h, mk (buf e +:+ join_lines ls)))
      | None => None
      end.

(** An exporter computation leaves the tree as it found it. *)
Definition keeps_tree {E A} (m : Run (Heap * E) A) : Prop :=
  ∀ h e r h' e', m (h, e) = Some (r, (h', e')) → h' = h.

(** ** The documented construction path

    Programs that build the tree the way the driver does: constructors,
    [createPage], and [addCell] given a cell.  The parent setter is not
    called directly. *)

Definition is_cell (c : NodeClass) : bool :=
  match c with
  | ImageCell _ | SourceCodeCell _ | TextCell _ => true
  | Notebook _ | Page _ => false
  end.

(** Notebooks sit above pages, pages above cells. *)
Definition level (c : NodeClass) : nat :=
  match c with
  | Notebook _ => 2
  | Page _ => 1
  | ImageCell _ | SourceCodeCell _ | TextCell _ => 0
  end.

Definition driver_step (op : Op) (h : Heap) : bool :=
  match op with
  | SetParent _ _ => false
  | AddCell _ c =>
    match h !! c with
    | Some o => is_cell (cls o)
    | None => false
    end
  | _ => true
  end.

Fixpoint driver_style (ops : list Op) (h : Heap) : bool :=
  match ops with
  | [] => true
  | op :: ops' =>
    driver_step op h &&
    match step op h with
    | Some (_, h') => driver_style ops' h'
    | None => false
    end
  end.

(** Every child is allocated and sits on a lower level than its parent. *)
Definition layered (h : Heap) : Prop :=
  ∀ (n : loc) o c, h !! n = Some o → c ∈ _children o →
    ∃ oc, h !! c = Some oc ∧ level (cls oc) < level (cls o).

(** Concatenation of buffers. *)
Fixpoint concat_strings (ss : list string) : string :=
  match ss with
  | [] => EmptyString
  | s :: ss' => s +:+ concat_strings ss'
  end.

(** Every node of [h] is still in [h'], with its class and attributes, its
    parent field, and its children followed by what was added since. *)
Definition grows (h h' : Heap) : Prop :=
  ∀ (n : loc) o, h !! n = Some o →
    ∃ o', h' !! n = Some o' ∧ cls o' = cls o ∧ _parent o' = _parent o ∧
      _children o `prefix_of` _children o'.

(** * Properties *)

(** ** Running computations *)

Lemma bind_Some {S A B} (m : Run S A) (f : A → Run S B) s r :
  bind m f s = Some r ↔ ∃ a s', m s = Some (a, s') ∧ f a s' = Some r.
Proof.
  unfold bind. destruct (m s) as [[a s']|]; split.
  - eauto.
  - intros (? & ? & [= <- <-] & ?). done.
  - done.
  - intros (? & ? & ? & ?). done.
Qed.

Lemma bind_eq {S A B} (m : Run S A) (f : A → Run S B) s a s' :
  m s = Some (a, s') → bind m f s = f a s'.
Proof. unfold bind. by intros ->. Qed.

Lemma for_of_app {S A} (xs ys : list A) (body : A → Run S unit) s :
  for_of (xs ++ ys) body s = (for_of xs body ;; for_of ys body) s.
Proof.
  revert s. induction xs as [|x xs IH]; intros s; simpl.
  - done.
  - unfold bind. destruct (body x s) as [[[] s1]|]; [|done].
    rewrite IH. done.
Qed.

Lemma deref_eq h n o : h !! n = Some o → deref n h = Some (o, h).
Proof. unfold deref. by intros ->. Qed.

Lemma deref_Some h n o h' : deref n h = Some (o, h') → h !! n = Some o ∧ h' = h.
Proof. unfold deref. destruct (h !! n); naive_solver. Qed.

(** ** [indexOf] decides membership *)

Lemma indexOf_elem (l : list loc) x k :
  (0 ≤ k)%Z → x ∈ l → (k ≤ indexOf l x k)%Z.
Proof.
  revert k. induction l as [|y l IH]; intros k Hk Hx; cbn [indexOf].
  - by apply elem_of_nil in Hx.
  - case_decide as Hne; [reflexivity|].
    apply elem_of_cons in Hx as [->|Hx]; [done|].
    assert (k + 1 ≤ indexOf l x (k + 1))%Z by (apply IH; [lia|done]).
    clear IH. lia.
Qed.

Lemma indexOf_not_elem (l : list loc) x k : x ∉ l → indexOf l x k = (-1)%Z.
Proof.
  revert k. induction l as [|y l IH]; intros k Hx; cbn [indexOf]; [done|].
  apply not_elem_of_cons in Hx as [Hne Hx].
  case_decide; [congruence|]. by apply IH.
Qed.

(** ** The parent setter on a well-formed store *)

Lemma addChild_eq h v n ov :
  h !! v = Some ov → addChild v n h = Some (tt, pushed v n ov h).
Proof.
  intros Hv.
  unfold addChild, getIndexOfChild, children, set_children, pushed.
  unfold bind, deref, ret, get, put. rewrite Hv.
  destruct (decide (n ∈ _children ov)) as [Hin|Hnin].
  - pose proof (indexOf_elem _ _ 0%Z ltac:(lia) Hin) as Hi.
    by rewrite (proj2 (Z.geb_le _ _) Hi).
  - rewrite (indexOf_not_elem _ _ _ Hnin). simpl.
    rewrite Hv. simpl. by rewrite Hv.
Qed.

Lemma addChild_Some h v n r :
  addChild v n h = Some r → ∃ ov, h !! v = Some ov ∧ r = (tt, pushed v n ov h).
Proof.
  intros Hr. destruct (h !! v) as [ov|] eqn:Hv.
  - exists ov. split; [done|]. rewrite (addChild_eq _ _ _ _ Hv) in Hr. congruence.
  - unfold addChild, getIndexOfChild, children, bind, deref in Hr.
    by rewrite Hv in Hr.
Qed.

Lemma set_parent_eq h n on v :
  h !! n = Some on → _parent on = None →
  set_parent n v h =
    match v with Some p => addChild p n h | None => Some (tt, h) end.
Proof.
  intros Hn Hp. unfold set_parent, parent.
  unfold bind at 1 2, deref, ret at 1 2. rewrite Hn, Hp. by destruct v.
Qed.

Lemma set_parent_Some h n v r :
  set_parent n v h = Some r → ∃ on, h !! n = Some on.
Proof.
  unfold set_parent, parent. intros Hr.
  apply bind_Some in Hr as (? & ? & Hr & _).
  apply bind_Some in Hr as (on & ? & Hr & _).
  apply deref_Some in Hr as [? _]. eauto.
Qed.

Lemma length_pushed v n ov h : length (pushed v n ov h) = length h.
Proof. unfold pushed. case_decide; [done|apply length_insert]. Qed.

Lemma lookup_pushed_ne v n ov h m : m ≠ v → pushed v n ov h !! m = h !! m.
Proof.
  intros Hm. unfold pushed. case_decide; [done|].
  by apply list_lookup_insert_ne.
Qed.

Lemma lookup_pushed_eq v n ov h :
  h !! v = Some ov →
  pushed v n ov h !! v =
    Some (mkNode (_parent ov)
            (if decide (n ∈ _children ov) then _children ov
             else _children ov ++ [n])
            (cls ov)).
Proof.
  intros Hv. unfold pushed. case_decide.
  - rewrite Hv. by destruct ov.
  - apply list_lookup_insert_eq. by eapply lookup_lt_Some.
Qed.

Lemma wf_nil : wf [].
Proof. split; intros n o; by rewrite lookup_nil. Qed.

Lemma wf_pushed h v n ov :
  wf h → h !! v = Some ov → n < length h → wf (pushed v n ov h).
Proof.
  intros [Hp Hr Hd] Hv Hn. split; intros m o; rewrite ?length_pushed.
  - destruct (decide (m = v)) as [->|Hm].
    + rewrite (lookup_pushed_eq _ _ _ _ Hv). intros [= <-]. simpl. eauto.
    + rewrite (lookup_pushed_ne _ _ _ _ _ Hm). eauto.
  - intros c. destruct (decide (m = v)) as [->|Hm].
    + rewrite (lookup_pushed_eq _ _ _ _ Hv). intros [= <-]. simpl.
      case_decide; [by eauto|]. rewrite elem_of_app, list_elem_of_singleton.
      intros [?| ->]; eauto.
    + rewrite (lookup_pushed_ne _ _ _ _ _ Hm). eauto.
  - destruct (decide (m = v)) as [->|Hm].
    + rewrite (lookup_pushed_eq _ _ _ _ Hv). intros [= <-]. simpl.
      case_decide; [by eauto|]. apply NoDup_app. split; [by eauto|].
      split; [|apply NoDup_singleton].
      intros x Hx ->%list_elem_of_singleton. done.
    + rewrite (lookup_pushed_ne _ _ _ _ _ Hm). eauto.
Qed.

Lemma wf_alloc h c : wf h → wf (h ++ [mkNode None [] c]).
Proof.
  intros [Hp Hr Hd]. split; intros m o; rewrite ?length_app; simpl.
  - intros [[_ ?]|[_ <-]]%lookup_snoc_Some; eauto.
  - intros c' [[_ ?]|[_ <-]]%lookup_snoc_Some Hc.
    + specialize (Hr _ _ _ H Hc). lia.
    + by apply elem_of_nil in Hc.
  - intros [[_ ?]|[_ <-]]%lookup_snoc_Some; [eauto|apply NoDup_nil_2].
Qed.

(** A constructor call on a well-formed store. *)
Lemma new_node_Some h c v n h' :
  wf h → new_node c v h = Some (n, h') →
  n = length h ∧ wf h' ∧ length h' = S (length h) ∧
  h' = match v with
       | None => h ++ [mkNode None [] c]
       | Some p =>
         match (h ++ [mkNode None [] c]) !! p with
         | Some op => pushed p n op (h ++ [mkNode None [] c])
         | None => h'
         end
       end.
Proof.
  intros Hwf. unfold new_node, alloc. unfold bind at 1.
  set (h1 := h ++ [mkNode None [] c]).
  assert (Hn : h1 !! length h = Some (mkNode None [] c))
    by by apply list_lookup_middle.
  assert (Hl : length h1 = S (length h))
    by (unfold h1; rewrite length_app; simpl; lia).
  unfold bind. rewrite (set_parent_eq _ _ _ v Hn eq_refl).
  destruct v as [p|].
  - destruct (addChild p (length h) h1) as [[[] h2]|] eqn:Ha; [|done].
    apply addChild_Some in Ha as (op & Hp & [= ->]).
    unfold ret. intros [= <- <-]. rewrite Hp, length_pushed.
    split_and!; [done| |done|done].
    apply wf_pushed; [by apply wf_alloc|done|lia].
  - unfold ret. intros [= <- <-]. split_and!; [done|by apply wf_alloc|done..].
Qed.

Lemma set_parent_wf h n v h' :
  wf h → set_parent n v h = Some (tt, h') →
  ∃ on, h !! n = Some on ∧
    match v with
    | None => h' = h
    | Some p => ∃ op, h !! p = Some op ∧ h' = pushed p n op h
    end.
Proof.
  intros Hwf Hs. destruct (set_parent_Some _ _ _ _ Hs) as [on Hn].
  exists on. split; [done|].
  rewrite (set_parent_eq _ _ _ v Hn (wf_parent _ Hwf _ _ Hn)) in Hs.
  destruct v as [p|]; [|congruence].
  apply addChild_Some in Hs as (op & Hp & [= ->]). eauto.
Qed.

Lemma set_parent_keeps_wf h n v h' :
  wf h → set_parent n v h = Some (tt, h') → wf h' ∧ length h' = length h.
Proof.
  intros Hwf Hs. destruct (set_parent_wf _ _ _ _ Hwf Hs) as (on & Hn & Hv).
  destruct v as [p|].
  - destruct Hv as (op & Hp & ->). rewrite length_pushed. split; [|done].
    apply wf_pushed; [done..|]. by eapply lookup_lt_Some.
  - by subst.
Qed.

Lemma step_wf op h h' : wf h → step op h = Some (tt, h') → wf h'.
Proof.
  intros Hwf. destruct op as [t|u|c|t|n t|p c|n v]; simpl.
  1-4: unfold new_Notebook, new_ImageCell, new_SourceCodeCell, new_TextCell;
       intros (x & h1 & Hn & [= <-])%bind_Some;
       by apply (new_node_Some _ _ _ _ _ Hwf) in Hn as (_ & ? & _).
  - intros (x & h1 & Hn & [= <-])%bind_Some. unfold createPage in Hn.
    apply bind_Some in Hn as (o & h2 & [Ho ->]%deref_Some & Hn).
    destruct (cls o); try done.
    by apply (new_node_Some _ _ _ _ _ Hwf) in Hn as (_ & ? & _).
  - unfold addCell. intros (o & h2 & [Ho ->]%deref_Some & Hs)%bind_Some.
    destruct (cls o); try done.
    by apply (set_parent_keeps_wf _ _ _ _ Hwf) in Hs as [? _].
  - intros Hs. by apply (set_parent_keeps_wf _ _ _ _ Hwf) in Hs as [? _].
Qed.

Lemma for_of_step_wf ops h h' :
  wf h → for_of ops step h = Some (tt, h') → wf h'.
Proof.
  revert h. induction ops as [|op ops IH]; intros h Hwf; simpl.
  - unfold ret. by intros [= <-].
  - intros ([] & h1 & Hs & Hr)%bind_Some. eauto using step_wf.
Qed.

Lemma built_wf ops h : built ops h → wf h.
Proof. apply for_of_step_wf, wf_nil. Qed.

(** ** Strings *)

Lemma append_assoc (a b c : string) : (a +:+ b) +:+ c = a +:+ (b +:+ c).
Proof. induction a as [|x a IH]; [reflexivity|exact (f_equal (String x) IH)]. Qed.

Lemma append_nil_r (a : string) : a +:+ EmptyString = a.
Proof. induction a as [|x a IH]; [reflexivity|exact (f_equal (String x) IH)]. Qed.

Lemma join_lines_app (xs ys : list string) :
  join_lines (xs ++ ys) = join_lines xs +:+ join_lines ys.
Proof.
  induction xs as [|x xs IH]; simpl; [done|].
  by rewrite IH, !append_assoc.
Qed.

(** ** [export] emits the lines of the subtree *)

Lemma for_of_emits {E} (buf : E → string) (mk : string → E)
    (body : loc → Visit E) (f : loc → option (list string)) h :
  (∀ s, buf (mk s) = s) → (∀ e, mk (buf e) = e) →
  (∀ c e, emits buf mk (body c (h, e)) h e (f c)) →
  ∀ cs e, emits buf mk (for_of cs body (h, e)) h e (all_lines f cs).
Proof.
  intros Hbm Hmb Hbody. unfold emits in *.
  induction cs as [|c cs IH]; intros e; simpl.
  - unfold ret. by rewrite append_nil_r, Hmb.
  - unfold bind. rewrite Hbody. destruct (f c) as [l|]; [|done].
    rewrite IH. destruct (all_lines f cs) as [ls|]; [|done].
    by rewrite Hbm, join_lines_app, append_assoc.
Qed.

Lemma export_html fuel n h e :
  emits HtmlExporter._html HtmlExporter.mk (export fuel n (h, e)) h e
    (subtree_lines html_markup fuel h n).
Proof.
  revert n e. induction fuel as [|fuel IH]; intros n e; [done|].
  unfold emits. simpl. unfold bind at 1, tree at 1, deref. simpl.
  destruct (h !! n) as [o|] eqn:Hn; [|done].
  pose proof (for_of_emits HtmlExporter._html HtmlExporter.mk
    (export fuel) (subtree_lines html_markup fuel h) h
    (λ _, eq_refl) ltac:(by intros []) IH (_children o)) as Hfor.
  unfold emits in Hfor.
  destruct (cls o) as [t|t|u|c|t] eqn:Hc.
  - unfold HtmlExporter.exportNotebook, HtmlExporter.appendHtmlLine, pages,
      title, children.
    unfold bind, tree, deref, ret. simpl. rewrite Hn, Hc. simpl.
    rewrite Hn. simpl. rewrite Hfor.
    destruct (all_lines _ _) as [ls|]; [|done]. simpl.
    rewrite join_lines_app. cbn [join_lines].
    by rewrite ?append_assoc, ?append_nil_r.
  - unfold HtmlExporter.exportPage, HtmlExporter.appendHtmlLine, cells,
      title, children.
    unfold bind, tree, deref, ret. simpl. rewrite Hn, Hc. simpl.
    rewrite Hn. simpl. rewrite Hfor.
    destruct (all_lines _ _) as [ls|]; [|done]. simpl.
    rewrite join_lines_app. cbn [join_lines].
    by rewrite ?append_assoc, ?append_nil_r.
  - unfold HtmlExporter.exportImageCell, HtmlExporter.appendHtmlLine, imageUrl.
    unfold bind, tree, deref, ret. simpl. rewrite Hn, Hc. simpl.
    by rewrite !append_assoc, ?append_nil_r.
  - unfold HtmlExporter.exportSourceCodeCell, HtmlExporter.appendHtmlLine,
      sourceCode.
    unfold bind, tree, deref, ret. simpl. rewrite Hn, Hc. simpl.
    by rewrite !append_assoc, ?append_nil_r.
  - unfold HtmlExporter.exportTextCell, HtmlExporter.appendHtmlLine, text.
    unfold bind, tree, deref, ret. simpl. rewrite Hn, Hc. simpl.
    by rewrite !append_assoc, ?append_nil_r.
Qed.

Lemma export_xml fuel n h e :
  emits XmlExporter._xml XmlExporter.mk (export fuel n (h, e)) h e
    (subtree_lines xml_markup fuel h n).
Proof.
  revert n e. induction fuel as [|fuel IH]; intros n e; [done|].
  unfold emits. simpl. unfold bind at 1, tree at 1, deref. simpl.
  destruct (h !! n) as [o|] eqn:Hn; [|done].
  pose proof (for_of_emits XmlExporter._xml XmlExporter.mk
    (export fuel) (subtree_lines xml_markup fuel h) h
    (λ _, eq_refl) ltac:(by intros []) IH (_children o)) as Hfor.
  unfold emits in Hfor.
  destruct (cls o) as [t|t|u|c|t] eqn:Hc.
  - unfold XmlExporter.exportNotebook, XmlExporter.appendXmlLine, pages,
      title, children.
    unfold bind, tree, deref, ret. simpl. rewrite Hn, Hc. simpl.
    rewrite Hn. simpl. rewrite Hfor.
    destruct (all_lines _ _) as [ls|]; [|done]. simpl.
    rewrite join_lines_app. cbn [join_lines].
    by rewrite ?append_assoc, ?append_nil_r.
  - unfold XmlExporter.exportPage, XmlExporter.appendXmlLine, cells,
      title, children.
    unfold bind, tree, deref, ret. simpl. rewrite Hn, Hc. simpl.
    rewrite Hn. simpl. rewrite Hfor.
    destruct (all_lines _ _) as [ls|]; [|done]. simpl.
    rewrite join_lines_app. cbn [join_lines].
    by rewrite ?append_assoc, ?append_nil_r.
  - unfold XmlExporter.exportImageCell, XmlExporter.appendXmlLine, imageUrl.
    unfold bind, tree, deref, ret. simpl. rewrite Hn, Hc. simpl.
    by rewrite !append_assoc, ?append_nil_r.
  - unfold XmlExporter.exportSourceCodeCell, XmlExporter.appendXmlLine,
      sourceCode.
    unfold bind, tree, deref, ret. simpl. rewrite Hn, Hc. simpl.
    by rewrite !append_assoc, ?append_nil_r.
  - unfold XmlExporter.exportTextCell, XmlExporter.appendXmlLine, text.
    unfold bind, tree, deref, ret. simpl. rewrite Hn, Hc. simpl.
    by rewrite !append_assoc, ?append_nil_r.
Qed.

(** ** Frame lemmas: composing computations that leave the tree alone *)

Lemma keeps_tree_bind {E A B} (m : Run (Heap * E) A) (f : A → Run (Heap * E) B) :
  keeps_tree m → (∀ a, keeps_tree (f a)) → keeps_tree (bind m f).
Proof.
  intros Hm Hf h e r h' e' (a & [h1 e1] & Hr1 & Hr2)%bind_Some.
  apply Hm in Hr1 as ->. by apply Hf in Hr2.
Qed.

Lemma keeps_tree_for_of {E} (cs : list loc) (body : loc → Visit E) :
  (∀ c, keeps_tree (body c)) → keeps_tree (for_of cs body).
Proof.
  intros Hb. induction cs as [|c cs IH]; simpl.
  - intros h e r h' e'. unfold ret. by intros [= _ <- _].
  - apply keeps_tree_bind; [apply Hb|done].
Qed.

(** Reading a node from inside an operation: [deref] and the getters built
    on it return the store they were given. *)
Lemma keeps_tree_title {E} n : keeps_tree (E:=E) (tree (title n)).
Proof.
  intros h e r h' e'. unfold tree, title, bind, deref, ret, throw. simpl.
  destruct (h !! n) as [o|]; [|done].
  destruct (cls o); first [done|by intros [= _ <- _]].
Qed.

Lemma keeps_tree_children {E} n : keeps_tree (E:=E) (tree (children n)).
Proof.
  intros h e r h' e'. unfold tree, children, bind, deref, ret. simpl.
  destruct (h !! n) as [o|]; [|done]. by intros [= _ <- _].
Qed.

Lemma keeps_tree_imageUrl {E} n : keeps_tree (E:=E) (tree (imageUrl n)).
Proof.
  intros h e r h' e'. unfold tree, imageUrl, bind, deref, ret, throw. simpl.
  destruct (h !! n) as [o|]; [|done].
  destruct (cls o); first [done|by intros [= _ <- _]].
Qed.

Lemma keeps_tree_sourceCode {E} n : keeps_tree (E:=E) (tree (sourceCode n)).
Proof.
  intros h e r h' e'. unfold tree, sourceCode, bind, deref, ret, throw. simpl.
  destruct (h !! n) as [o|]; [|done].
  destruct (cls o); first [done|by intros [= _ <- _]].
Qed.

Lemma keeps_tree_text {E} n : keeps_tree (E:=E) (tree (text n)).
Proof.
  intros h e r h' e'. unfold tree, text, bind, deref, ret, throw. simpl.
  destruct (h !! n) as [o|]; [|done].
  destruct (cls o); first [done|by intros [= _ <- _]].
Qed.

Lemma keeps_tree_deref {E} n : keeps_tree (E:=E) (tree (deref n)).
Proof.
  intros h e r h' e'. unfold tree, deref. simpl.
  destruct (h !! n) as [o|]; [|done]. by intros [= _ <- _].
Qed.

Lemma keeps_tree_appendHtmlLine l : keeps_tree (HtmlExporter.appendHtmlLine l).
Proof. intros h e r h' e'. unfold HtmlExporter.appendHtmlLine. by intros [= _ <- _]. Qed.

Lemma keeps_tree_appendXmlLine l : keeps_tree (XmlExporter.appendXmlLine l).
Proof. intros h e r h' e'. unfold XmlExporter.appendXmlLine. by intros [= _ <- _]. Qed.

Create HintDb frame.
#[local] Hint Resolve keeps_tree_title keeps_tree_children keeps_tree_imageUrl
  keeps_tree_sourceCode keeps_tree_text keeps_tree_deref
  keeps_tree_appendHtmlLine keeps_tree_appendXmlLine : frame.

Ltac frame :=
  repeat first
    [ apply keeps_tree_bind; [|intros ?]
    | apply keeps_tree_for_of; intros ?
    | solve [unfold pages, cells; auto with frame] ].

Lemma html_ops_keep_tree (export : loc → Visit HtmlExporter.t) n :
  (∀ c, keeps_tree (export c)) →
  keeps_tree (HtmlExporter.exportNotebook export n) ∧
  keeps_tree (HtmlExporter.exportPage export n) ∧
  keeps_tree (HtmlExporter.exportImageCell n) ∧
  keeps_tree (HtmlExporter.exportSourceCodeCell n) ∧
  keeps_tree (HtmlExporter.exportTextCell n).
Proof.
  intros Hx.
  unfold HtmlExporter.exportNotebook, HtmlExporter.exportPage,
    HtmlExporter.exportImageCell, HtmlExporter.exportSourceCodeCell,
    HtmlExporter.exportTextCell.
  split_and!; frame.
Qed.

Lemma xml_ops_keep_tree (export : loc → Visit XmlExporter.t) n :
  (∀ c, keeps_tree (export c)) →
  keeps_tree (XmlExporter.exportNotebook export n) ∧
  keeps_tree (XmlExporter.exportPage export n) ∧
  keeps_tree (XmlExporter.exportImageCell n) ∧
  keeps_tree (XmlExporter.exportSourceCodeCell n) ∧
  keeps_tree (XmlExporter.exportTextCell n).
Proof.
  intros Hx.
  unfold XmlExporter.exportNotebook, XmlExporter.exportPage,
    XmlExporter.exportImageCell, XmlExporter.exportSourceCodeCell,
    XmlExporter.exportTextCell.
  split_and!; frame.
Qed.

Lemma export_html_keeps_tree fuel n :
  keeps_tree (export (E:=HtmlExporter.t) fuel n).
Proof.
  revert n. induction fuel as [|fuel IH]; intros n; [done|].
  simpl. apply keeps_tree_bind; [apply keeps_tree_deref|].
  intros o. destruct (html_ops_keep_tree (export fuel) n IH) as (?&?&?&?&?).
  by destruct (cls o).
Qed.

Lemma export_xml_keeps_tree fuel n :
  keeps_tree (export (E:=XmlExporter.t) fuel n).
Proof.
  revert n. induction fuel as [|fuel IH]; intros n; [done|].
  simpl. apply keeps_tree_bind; [apply keeps_tree_deref|].
  intros o. destruct (xml_ops_keep_tree (export fuel) n IH) as (?&?&?&?&?).
  by destruct (cls o).
Qed.

(** ** Depth bound and termination *)

Lemma tree_below_lines m d h n :
  tree_below d h n = true → is_Some (subtree_lines m d h n).
Proof.
  revert n. induction d as [|d IH]; intros n; simpl; [done|].
  destruct (h !! n) as [o|]; [|done]. intros Hall.
  assert (is_Some (all_lines (subtree_lines m d h) (_children o))) as [ls Hls].
  { induction (_children o) as [|c cs IHcs]; simpl; [by eexists|].
    simpl in Hall. apply andb_true_iff in Hall as [Hc Hcs].
    destruct (IH _ Hc) as [l ->]. destruct (IHcs Hcs) as [ls ->]. by eexists. }
  rewrite Hls. by destruct (cls o).
Qed.

(** ** Pages of cells *)

Lemma all_lines_cells m k h cs ls :
  mapM (cell_line m h) cs = Some ls →
  all_lines (subtree_lines m (S k) h) cs = Some ls.
Proof.
  intros Hall%mapM_Some. induction Hall as [|c l cs ls Hc _ IH]; [reflexivity|].
  cbn [all_lines]. rewrite IH. unfold cell_line in Hc.
  cbn [subtree_lines].
  destruct (h !! c) as [o|]; [|discriminate Hc].
  destruct (cls o); first [discriminate Hc|by injection Hc as <-].
Qed.

Lemma cell_lines m k h n l :
  cell_line m h n = Some l → subtree_lines m (S k) h n = Some [l].
Proof.
  unfold cell_line. cbn [subtree_lines].
  destruct (h !! n) as [o|]; [|discriminate].
  destruct (cls o); first [discriminate|by intros [= <-]].
Qed.

Lemma page_lines m k h n o t ls :
  h !! n = Some o → cls o = Page t →
  mapM (cell_line m h) (_children o) = Some ls →
  subtree_lines m (S (S k)) h n = Some (page_open m t ++ ls ++ [page_close m]).
Proof.
  intros Hn Hc Hls. cbn [subtree_lines]. rewrite Hn, Hc.
  change (all_lines _ (_children o))
    with (all_lines (subtree_lines m (S k) h) (_children o)).
  by rewrite (all_lines_cells _ _ _ _ _ Hls).
Qed.

Lemma export_html_fresh fuel n h ls :
  subtree_lines html_markup fuel h n = Some ls →
  export fuel n (h, HtmlExporter.new) =
    Some (tt, (h, HtmlExporter.mk (join_lines ls))).
Proof.
  intros Hls. pose proof (export_html fuel n h HtmlExporter.new) as He.
  unfold emits in He. rewrite Hls in He. exact He.
Qed.

Lemma export_xml_fresh fuel n h ls :
  subtree_lines xml_markup fuel h n = Some ls →
  export fuel n (h, XmlExporter.new) =
    Some (tt, (h, XmlExporter.mk (XmlExporter.preamble +:+ join_lines ls))).
Proof.
  intros Hls. pose proof (export_xml fuel n h XmlExporter.new) as He.
  unfold emits in He. rewrite Hls in He. exact He.
Qed.

(** * The claims *)

(** C1. The demo tree (notebook "My Coding Ideas", page "First Page" with an
    image cell, a source-code cell and a text cell, page "Second Page" with
    a text cell) exported into a fresh [HtmlExporter] gives exactly the
    HTML line sequence, and into a fresh [XmlExporter] exactly the preamble
    followed by the XML line sequence; every line is preceded by a newline
    and the attribute values are embedded as they are.  This holds for
    every image URL and every call depth of at least three. *)
Theorem demo_export_exact (logo : string) (k : nat) :
  HtmlExporter.html <$> demo_export logo HtmlExporter.new (3 + k) =
    Some (join_lines
      [ "<main class=" +:+ DQ +:+ "notebook" +:+ DQ +:+ ">";
        "<h1>My Coding Ideas</h1>";
        "<section class=" +:+ DQ +:+ "page" +:+ DQ +:+ ">";
        "<h2>First Page</h2>";
        "<img src=" +:+ DQ +:+ logo +:+ DQ +:+ ">";
        "<code>alert('Hello, World!');</code>";
        "<p>Hello, World!</p>";
        "</section>";
        "<section class=" +:+ DQ +:+ "page" +:+ DQ +:+ ">";
        "<h2>Second Page</h2>";
        "<p>Bye, World!</p>";
        "</section>";
        "</main>" ])
  ∧
  XmlExporter.xml <$> demo_export logo XmlExporter.new (3 + k) =
    Some (("<?xml version=" +:+ DQ +:+ "1.0" +:+ DQ +:+ " encoding=" +:+ DQ
             +:+ "UTF-8" +:+ DQ +:+ "?>") +:+
      join_lines
      [ "<notebook title=" +:+ DQ +:+ "My Coding Ideas" +:+ DQ +:+ ">";
        "<page title=" +:+ DQ +:+ "First Page" +:+ DQ +:+ ">";
        "<image url=" +:+ DQ +:+ logo +:+ DQ +:+ " />";
        "<code>alert('Hello, World!');</code>";
        "<text>Hello, World!</text>";
        "</page>";
        "<page title=" +:+ DQ +:+ "Second Page" +:+ DQ +:+ ">";
        "<text>Bye, World!</text>";
        "</page>";
        "</notebook>" ]).
Proof.
  unfold demo_export.
  assert (∃ h, demo logo [] = Some (0, h) ∧
    subtree_lines html_markup (3 + k) h 0 = Some
      [ "<main class=" +:+ DQ +:+ "notebook" +:+ DQ +:+ ">";
        "<h1>" +:+ "My Coding Ideas" +:+ "</h1>";
        "<section class=" +:+ DQ +:+ "page" +:+ DQ +:+ ">";
        "<h2>" +:+ "First Page" +:+ "</h2>";
        "<img src=" +:+ DQ +:+ logo +:+ DQ +:+ ">";
        "<code>" +:+ "alert('Hello, World!');" +:+ "</code>";
        "<p>" +:+ "Hello, World!" +:+ "</p>";
        "</section>";
        "<section class=" +:+ DQ +:+ "page" +:+ DQ +:+ ">";
        "<h2>" +:+ "Second Page" +:+ "</h2>";
        "<p>" +:+ "Bye, World!" +:+ "</p>";
        "</section>";
        "</main>" ] ∧
    subtree_lines xml_markup (3 + k) h 0 = Some
      [ "<notebook title=" +:+ DQ +:+ "My Coding Ideas" +:+ DQ +:+ ">";
        "<page title=" +:+ DQ +:+ "First Page" +:+ DQ +:+ ">";
        "<image url=" +:+ DQ +:+ logo +:+ DQ +:+ " />";
        "<code>" +:+ "alert('Hello, World!');" +:+ "</code>";
        "<text>" +:+ "Hello, World!" +:+ "</text>";
        "</page>";
        "<page title=" +:+ DQ +:+ "Second Page" +:+ DQ +:+ ">";
        "<text>" +:+ "Bye, World!" +:+ "</text>";
        "</page>";
        "</notebook>" ]) as (h & -> & Hh & Hx).
  { eexists. split; [reflexivity|]. split; reflexivity. }
  pose proof (export_html (3 + k) 0 h HtmlExporter.new) as ->.
  pose proof (export_xml (3 + k) 0 h XmlExporter.new) as ->.
  rewrite Hh, Hx. split; reflexivity.
Qed.

(** C2 (the code departs from it). After [c.parent = p; c.parent = q] the
    cell is a child of both [p] and [q] while its [parent] getter shows no
    parent, and after [c.parent = p; c.parent = null] it is still a child of
    [p]: the setter never records the parent, so the old edge is never
    removed. *)
Theorem reparent_leaves_old_edge :
  fst <$> reparent_scenario [] = Some (1, 2, 3, [3], [3], None) ∧
  fst <$> detach_scenario [] = Some (1, 2, [2]).
Proof. split; reflexivity. Qed.

(** C3. In every store built by constructor calls, [createPage], [addCell]
    and parent assignments, the backing field [_parent] of every node is
    unset and the [parent] getter returns nothing. *)
Theorem parent_is_never_assigned (ops : list Op) (h : Heap) (n : loc) (o : Node) :
  built ops h → h !! n = Some o →
  _parent o = None ∧ parent n h = Some (None, h).
Proof.
  intros Hb Hn. pose proof (wf_parent _ (built_wf _ _ Hb) _ _ Hn) as Hp.
  split; [done|]. unfold parent. rewrite (bind_eq _ _ _ _ _ (deref_eq _ _ _ Hn)).
  unfold ret. by rewrite Hp.
Qed.

Lemma parent_is_never_assigned_witness :
  built sample_ops sample_heap ∧ parent 6 sample_heap = Some (None, sample_heap).
Proof.
  split; [reflexivity|].
  eapply (parent_is_never_assigned sample_ops sample_heap 6); reflexivity.
Defined.

(** C4 (the code departs from it). Cells [a] then [b] are added to a page;
    [a] is detached and attached again to the same page.  The page's cells
    are still [a; b]: the detachment removed nothing, so the re-attachment
    found [a] present and did not move it to the end. *)
Theorem reattach_keeps_old_position :
  fst <$> reattach_scenario [] = Some (2, 3, [2; 3]).
Proof. reflexivity. Qed.

(** C5. In a store built by the public operations, assigning
    [n.parent = p] twice in a row leaves the store, and so [p]'s children,
    exactly as one assignment leaves it: [n] is appended when it was absent
    and nothing moves when it was present, and the children hold no
    duplicate. *)
Theorem attach_idempotent (ops : list Op) (h h1 : Heap) (n p : loc) :
  built ops h → set_parent n (Some p) h = Some (tt, h1) →
  (set_parent n (Some p) ;; set_parent n (Some p)) h = Some (tt, h1) ∧
  ∃ op op1, h !! p = Some op ∧ h1 !! p = Some op1 ∧
    _children op1 =
      (if decide (n ∈ _children op) then _children op
       else _children op ++ [n]) ∧
    n ∈ _children op1 ∧ NoDup (_children op1).
Proof.
  intros Hb Hs. pose proof (built_wf _ _ Hb) as Hwf.
  destruct (set_parent_wf _ _ _ _ Hwf Hs) as (on & Hn & op & Hp & ->).
  destruct (set_parent_keeps_wf _ _ _ _ Hwf Hs) as [Hwf1 Hlen].
  pose proof (lookup_pushed_eq p n op h Hp) as Hp1.
  set (cs1 := if decide (n ∈ _children op) then _children op
              else _children op ++ [n]) in *.
  assert (Hin : n ∈ cs1).
  { unfold cs1. case_decide; [done|]. apply elem_of_app. right.
    by apply list_elem_of_singleton. }
  assert (∃ on1, pushed p n op h !! n = Some on1) as [on1 Hn1].
  { apply lookup_lt_is_Some. rewrite length_pushed. by eapply lookup_lt_Some. }
  split.
  - rewrite (bind_eq _ _ _ _ _ Hs).
    rewrite (set_parent_eq _ _ _ (Some p) Hn1 (wf_parent _ Hwf1 _ _ Hn1)).
    rewrite (addChild_eq _ _ n _ Hp1). unfold pushed at 1. simpl.
    by rewrite (decide_True _ _ Hin).
  - eexists _, _. split_and!; [done|done|done|done|].
    by apply (wf_nodup _ Hwf1 _ _ Hp1).
Qed.

Lemma attach_idempotent_witness :
  (set_parent 6 (Some 1) ;; set_parent 6 (Some 1)) sample_heap =
    set_parent 6 (Some 1) sample_heap ∧
  fst <$> (set_parent 6 (Some 1) ;; children 1) sample_heap = Some [2; 3; 4; 6].
Proof.
  split; [|reflexivity].
  destruct (set_parent 6 (Some 1) sample_heap) as [[[] h1]|] eqn:Hs; [|done].
  exact (proj1 (attach_idempotent sample_ops sample_heap h1 6 1 eq_refl Hs)).
Defined.

(** C6. The parent setter, [createPage] and [addCell] return on every store
    built by the public operations, whatever valid objects they are given;
    and [export] with either exporter returns, leaving the tree as it was,
    on every node whose subtree is finite and free of cycles: some call
    depth is enough. *)
Theorem operations_total (ops : list Op) (h : Heap) :
  built ops h →
  (∀ n v, n < length h → (∀ p, v = Some p → p < length h) →
     ∃ h', set_parent n v h = Some (tt, h')) ∧
  (∀ n o t0 t, h !! n = Some o → cls o = Notebook t0 →
     ∃ h', createPage n t h = Some (length h, h')) ∧
  (∀ p c o t0, h !! p = Some o → cls o = Page t0 → c < length h →
     ∃ h', addCell p c h = Some (tt, h')) ∧
  (∀ n, acyclic_from h n →
     ∃ fuel,
       (∀ e : HtmlExporter.t, ∃ e', export fuel n (h, e) = Some (tt, (h, e'))) ∧
       (∀ e : XmlExporter.t, ∃ e', export fuel n (h, e) = Some (tt, (h, e')))).
Proof.
  intros Hb. pose proof (built_wf _ _ Hb) as Hwf.
  assert (Hset : ∀ h, wf h → ∀ n v, n < length h →
    (∀ p, v = Some p → p < length h) → ∃ h', set_parent n v h = Some (tt, h')).
  { clear. intros h Hwf n v Hn Hv.
    apply lookup_lt_is_Some in Hn as [on Hn].
    rewrite (set_parent_eq _ _ _ v Hn (wf_parent _ Hwf _ _ Hn)).
    destruct v as [p|]; [|by eexists].
    destruct (lookup_lt_is_Some_2 h p (Hv p eq_refl)) as [op Hp].
    rewrite (addChild_eq _ _ _ _ Hp). by eexists. }
  split_and!.
  - by apply Hset.
  - intros n o t0 t Hn Hc. unfold createPage.
    rewrite (bind_eq _ _ _ _ _ (deref_eq _ _ _ Hn)), Hc.
    unfold new_Page, new_node, alloc. unfold bind at 1.
    destruct (Hset (h ++ [mkNode None [] (Page t)]) (wf_alloc _ _ Hwf)
      (length h) (Some n)) as [h' Hh'].
    + rewrite length_app. simpl. lia.
    + intros p [= <-]. rewrite length_app. apply lookup_lt_Some in Hn. lia.
    + exists h'. unfold bind. by rewrite Hh'.
  - intros p c o t0 Hp Hc Hlt. unfold addCell.
    rewrite (bind_eq _ _ _ _ _ (deref_eq _ _ _ Hp)), Hc.
    apply Hset; [done..|]. intros ? [= <-]. by eapply lookup_lt_Some.
  - intros n [d Hd]. exists d. split; intros e.
    + destruct (tree_below_lines html_markup _ _ _ Hd) as [ls Hls].
      pose proof (export_html d n h e) as He. unfold emits in He.
      rewrite Hls in He. eauto.
    + destruct (tree_below_lines xml_markup _ _ _ Hd) as [ls Hls].
      pose proof (export_xml d n h e) as He. unfold emits in He.
      rewrite Hls in He. eauto.
Qed.

Lemma operations_total_witness :
  built sample_ops sample_heap ∧ acyclic_from sample_heap 0 ∧
  ∃ fuel e', export fuel 0 (sample_heap, HtmlExporter.new) =
    Some (tt, (sample_heap, e')).
Proof.
  split; [reflexivity|]. split; [by exists 3|].
  destruct (operations_total sample_ops sample_heap eq_refl) as (_ & _ & _ & H).
  destruct (H 0 (ex_intro _ 3 eq_refl)) as (fuel & Hh & _).
  destruct (Hh HtmlExporter.new) as [e' He']. by exists fuel, e'.
Defined.

(** C7. Every exporter operation of [HtmlExporter] and of [XmlExporter],
    and [export] itself, leaves the tree unchanged: whenever it returns, the
    store (parent fields, children arrays and attributes of every node) is
    the store it was started on. *)
Theorem export_keeps_tree (fuel : nat) (n : loc) :
  (keeps_tree (export (E:=HtmlExporter.t) fuel n) ∧
   keeps_tree (HtmlExporter.exportNotebook (export fuel) n) ∧
   keeps_tree (HtmlExporter.exportPage (export fuel) n) ∧
   keeps_tree (HtmlExporter.exportImageCell n) ∧
   keeps_tree (HtmlExporter.exportSourceCodeCell n) ∧
   keeps_tree (HtmlExporter.exportTextCell n)) ∧
  (keeps_tree (export (E:=XmlExporter.t) fuel n) ∧
   keeps_tree (XmlExporter.exportNotebook (export fuel) n) ∧
   keeps_tree (XmlExporter.exportPage (export fuel) n) ∧
   keeps_tree (XmlExporter.exportImageCell n) ∧
   keeps_tree (XmlExporter.exportSourceCodeCell n) ∧
   keeps_tree (XmlExporter.exportTextCell n)).
Proof.
  split; (split; [|]).
  - apply export_html_keeps_tree.
  - apply html_ops_keep_tree. intros c. apply export_html_keeps_tree.
  - apply export_xml_keeps_tree.
  - apply xml_ops_keep_tree. intros c. apply export_xml_keeps_tree.
Qed.

Lemma export_keeps_tree_witness :
  ∃ e', export 3 0 (sample_heap, XmlExporter.new) = Some (tt, (sample_heap, e')).
Proof.
  destruct (export 3 0 (sample_heap, XmlExporter.new)) as [[[] [h' e']]|] eqn:He.
  - exists e'.
    by rewrite (proj1 (proj2 (export_keeps_tree 3 0)) _ _ _ _ _ He).
  - vm_compute in He. discriminate He.
Defined.

(** C8. On a store built by the public operations, [createPage] on a
    notebook runs the [Page] constructor with the notebook as its parent
    argument: it returns a newly allocated page with the given title, and
    the page is then the last of the notebook's pages.  [addCell] on a page
    is the assignment [cell.parent = page], after which the cell is among
    the page's cells. *)
Theorem createPage_addCell (ops : list Op) (h : Heap) :
  built ops h →
  (∀ n o t0 t, h !! n = Some o → cls o = Notebook t0 →
     ∃ p h', createPage n t h = Some (p, h') ∧
       createPage n t h = new_node (Page t) (Some n) h ∧
       h !! p = None ∧
       h' !! p = Some (mkNode None [] (Page t)) ∧
       title p h' = Some (t, h') ∧
       pages n h' = Some (_children o ++ [p], h')) ∧
  (∀ p c o t0, h !! p = Some o → cls o = Page t0 → c < length h →
     ∃ h' cs, addCell p c h = Some (tt, h') ∧
       addCell p c h = set_parent c (Some p) h ∧
       cells p h' = Some (cs, h') ∧ c ∈ cs).
Proof.
  intros Hb. pose proof (built_wf _ _ Hb) as Hwf. split.
  - intros n o t0 t Hn Hc.
    assert (Hcp : createPage n t h = new_node (Page t) (Some n) h).
    { unfold createPage. by rewrite (bind_eq _ _ _ _ _ (deref_eq _ _ _ Hn)), Hc. }
    set (h1 := h ++ [mkNode None [] (Page t)]).
    assert (Hn1 : h1 !! n = Some o).
    { unfold h1. rewrite lookup_app_l; [done|by eapply lookup_lt_Some]. }
    assert (Hp1 : h1 !! length h = Some (mkNode None [] (Page t)))
      by by apply list_lookup_middle.
    assert (Hne : length h ≠ n) by (apply lookup_lt_Some in Hn; lia).
    assert (Hnin : length h ∉ _children o).
    { intros Hin. pose proof (wf_range _ Hwf _ _ _ Hn Hin). lia. }
    assert (Hnew : new_node (Page t) (Some n) h =
      Some (length h, pushed n (length h) o h1)).
    { unfold new_node, alloc. unfold bind at 1. fold h1. unfold bind.
      rewrite (set_parent_eq _ _ _ (Some n) Hp1 eq_refl).
      by rewrite (addChild_eq _ _ _ _ Hn1). }
    exists (length h), (pushed n (length h) o h1).
    assert (Hp2 : pushed n (length h) o h1 !! length h =
      Some (mkNode None [] (Page t))) by by rewrite lookup_pushed_ne.
    split_and!.
    + by rewrite Hcp.
    + done.
    + by apply lookup_ge_None_2.
    + done.
    + unfold title. by rewrite (bind_eq _ _ _ _ _ (deref_eq _ _ _ Hp2)).
    + unfold pages, children.
      rewrite (bind_eq _ _ _ _ _ (deref_eq _ _ _ (lookup_pushed_eq _ _ _ _ Hn1))).
      unfold ret. simpl. by rewrite (decide_False _ _ Hnin).
  - intros p c o t0 Hp Hc Hlt.
    assert (Hac : addCell p c h = set_parent c (Some p) h).
    { unfold addCell. by rewrite (bind_eq _ _ _ _ _ (deref_eq _ _ _ Hp)), Hc. }
    destruct (lookup_lt_is_Some_2 h c Hlt) as [oc Hoc].
    exists (pushed p c o h). eexists. split_and!.
    + rewrite Hac, (set_parent_eq _ _ _ (Some p) Hoc (wf_parent _ Hwf _ _ Hoc)).
      by apply addChild_eq.
    + done.
    + unfold cells, children.
      rewrite (bind_eq _ _ _ _ _ (deref_eq _ _ _ (lookup_pushed_eq _ _ _ _ Hp))).
      reflexivity.
    + simpl. case_decide; [done|]. apply elem_of_app. right.
      by apply list_elem_of_singleton.
Qed.

Lemma createPage_addCell_witness :
  built sample_ops sample_heap ∧
  (∃ h', createPage 0 "Third Page" sample_heap = Some (7, h') ∧
     pages 0 h' = Some ([1; 5; 7], h')) ∧
  (∃ h' cs, addCell 5 4 sample_heap = Some (tt, h') ∧
     cells 5 h' = Some (cs, h') ∧ 4 ∈ cs).
Proof.
  split; [reflexivity|].
  destruct (createPage_addCell sample_ops sample_heap eq_refl) as [Hc Ha]. split.
  - destruct (Hc 0 _ "My Coding Ideas" "Third Page" eq_refl eq_refl)
      as (p & h' & Hp & _ & _ & _ & _ & Hps).
    assert (p = 7) as -> by (vm_compute in Hp; congruence).
    by exists h'.
  - destruct (Ha 5 4 _ "Second Page" eq_refl eq_refl ltac:(simpl; lia))
      as (h' & cs & Hh & _ & Hcs & Hin).
    by exists h', cs.
Defined.

(** C9. An exporter only ever appends to its buffer.  When [export]
    returns, it has appended the lines of the subtree, each preceded by one
    newline and nothing else, to whatever the buffer held, and the accessor
    shows the whole buffer; run a second time on the same exporter, it
    appends the same serialization again after the first. *)
Theorem buffer_accumulates (fuel : nat) (n : loc) (h : Heap) :
  (∀ (e : HtmlExporter.t) r, export fuel n (h, e) = Some r →
     ∃ ls, subtree_lines html_markup fuel h n = Some ls ∧
       ∀ e0 : HtmlExporter.t,
         (∃ e1, export fuel n (h, e0) = Some (tt, (h, e1)) ∧
            HtmlExporter.html e1 = HtmlExporter.html e0 +:+ join_lines ls) ∧
         (∃ e2, (export fuel n ;; export fuel n) (h, e0) = Some (tt, (h, e2)) ∧
            HtmlExporter.html e2 =
              (HtmlExporter.html e0 +:+ join_lines ls) +:+ join_lines ls)) ∧
  (∀ (e : XmlExporter.t) r, export fuel n (h, e) = Some r →
     ∃ ls, subtree_lines xml_markup fuel h n = Some ls ∧
       ∀ e0 : XmlExporter.t,
         (∃ e1, export fuel n (h, e0) = Some (tt, (h, e1)) ∧
            XmlExporter.xml e1 = XmlExporter.xml e0 +:+ join_lines ls) ∧
         (∃ e2, (export fuel n ;; export fuel n) (h, e0) = Some (tt, (h, e2)) ∧
            XmlExporter.xml e2 =
              (XmlExporter.xml e0 +:+ join_lines ls) +:+ join_lines ls)).
Proof.
  split; intros e r Hr.
  - pose proof (export_html fuel n h) as He. unfold emits in He.
    destruct (subtree_lines html_markup fuel h n) as [ls|];
      [|by rewrite He in Hr].
    exists ls. split; [done|]. intros e0. split.
    + eexists. split; [apply He|done].
    + eexists. split.
      * unfold bind. rewrite He, He. reflexivity.
      * reflexivity.
  - pose proof (export_xml fuel n h) as He. unfold emits in He.
    destruct (subtree_lines xml_markup fuel h n) as [ls|];
      [|by rewrite He in Hr].
    exists ls. split; [done|]. intros e0. split.
    + eexists. split; [apply He|done].
    + eexists. split.
      * unfold bind. rewrite He, He. reflexivity.
      * reflexivity.
Qed.

Lemma buffer_accumulates_witness :
  ∃ ls e2, subtree_lines html_markup 3 sample_heap 0 = Some ls ∧
    (export 3 0 ;; export 3 0) (sample_heap, HtmlExporter.new) =
      Some (tt, (sample_heap, e2)) ∧
    HtmlExporter.html e2 = join_lines ls +:+ join_lines ls.
Proof.
  destruct (export 3 0 (sample_heap, HtmlExporter.new)) as [r|] eqn:He.
  - destruct (proj1 (buffer_accumulates 3 0 sample_heap) _ _ He) as (ls & Hls & H).
    destruct (H HtmlExporter.new) as (_ & e2 & H2 & Hb).
    exists ls, e2. split; [exact Hls|]. split; [exact H2|exact Hb].
  - vm_compute in He. discriminate He.
Defined.

(** C10. [export] on a page or a cell, whether or not some node lists it
    among its children, into a fresh exporter gives the serialization of
    that node alone: for a page its opening marker with its title, the
    lines of its cells in order and its closing marker; for a cell its one
    line; with no notebook markup around it (the XML buffer starts with the
    preamble it is created with). *)
Theorem export_subtree_alone (h : Heap) (n : loc) (o : Node) (k : nat) :
  h !! n = Some o →
  (∀ t ls_html ls_xml, cls o = Page t →
     mapM (cell_line html_markup h) (_children o) = Some ls_html →
     mapM (cell_line xml_markup h) (_children o) = Some ls_xml →
     export (2 + k) n (h, HtmlExporter.new) =
       Some (tt, (h, HtmlExporter.mk (join_lines
         (["<section class=" +:+ DQ +:+ "page" +:+ DQ +:+ ">";
           "<h2>" +:+ t +:+ "</h2>"] ++ ls_html ++ ["</section>"])))) ∧
     export (2 + k) n (h, XmlExporter.new) =
       Some (tt, (h, XmlExporter.mk (XmlExporter.preamble +:+ join_lines
         (["<page title=" +:+ DQ +:+ t +:+ DQ +:+ ">"] ++ ls_xml
            ++ ["</page>"]))))) ∧
  (∀ u, cls o = ImageCell u →
     export (1 + k) n (h, HtmlExporter.new) =
       Some (tt, (h, HtmlExporter.mk
         (LF +:+ "<img src=" +:+ DQ +:+ u +:+ DQ +:+ ">"))) ∧
     export (1 + k) n (h, XmlExporter.new) =
       Some (tt, (h, XmlExporter.mk (XmlExporter.preamble +:+
         LF +:+ "<image url=" +:+ DQ +:+ u +:+ DQ +:+ " />")))) ∧
  (∀ c, cls o = SourceCodeCell c →
     export (1 + k) n (h, HtmlExporter.new) =
       Some (tt, (h, HtmlExporter.mk (LF +:+ "<code>" +:+ c +:+ "</code>"))) ∧
     export (1 + k) n (h, XmlExporter.new) =
       Some (tt, (h, XmlExporter.mk (XmlExporter.preamble +:+
         LF +:+ "<code>" +:+ c +:+ "</code>")))) ∧
  (∀ t, cls o = TextCell t →
     export (1 + k) n (h, HtmlExporter.new) =
       Some (tt, (h, HtmlExporter.mk (LF +:+ "<p>" +:+ t +:+ "</p>"))) ∧
     export (1 + k) n (h, XmlExporter.new) =
       Some (tt, (h, XmlExporter.mk (XmlExporter.preamble +:+
         LF +:+ "<text>" +:+ t +:+ "</text>")))).
Proof.
  intros Hn.
  assert (Hleaf : ∀ lh lx, cell_line html_markup h n = Some lh →
    cell_line xml_markup h n = Some lx →
    export (1 + k) n (h, HtmlExporter.new) =
      Some (tt, (h, HtmlExporter.mk (LF +:+ lh))) ∧
    export (1 + k) n (h, XmlExporter.new) =
      Some (tt, (h, XmlExporter.mk (XmlExporter.preamble +:+ LF +:+ lx)))).
  { intros lh lx Hh Hx. change (1 + k) with (S k). split.
    - rewrite (export_html_fresh _ _ _ _ (cell_lines _ k _ _ _ Hh)).
      cbn [join_lines]. by rewrite append_nil_r.
    - rewrite (export_xml_fresh _ _ _ _ (cell_lines _ k _ _ _ Hx)).
      cbn [join_lines]. by rewrite append_nil_r. }
  split_and!.
  - intros t lh lx Hc Hh Hx. split.
    + exact (export_html_fresh _ _ _ _ (page_lines _ k _ _ _ _ _ Hn Hc Hh)).
    + exact (export_xml_fresh _ _ _ _ (page_lines _ k _ _ _ _ _ Hn Hc Hx)).
  - intros u Hc. apply Hleaf; unfold cell_line; by rewrite Hn, Hc.
  - intros c Hc. apply Hleaf; unfold cell_line; by rewrite Hn, Hc.
  - intros t Hc. apply Hleaf; unfold cell_line; by rewrite Hn, Hc.
Qed.

Lemma export_subtree_alone_witness :
  export 2 5 (sample_heap, HtmlExporter.new) =
    Some (tt, (sample_heap, HtmlExporter.mk (join_lines
      ["<section class=" +:+ DQ +:+ "page" +:+ DQ +:+ ">";
       "<h2>Second Page</h2>"; "<p>Bye, World!</p>"; "</section>"]))) ∧
  export 1 2 (sample_heap, XmlExporter.new) =
    Some (tt, (sample_heap, XmlExporter.mk (XmlExporter.preamble +:+
      LF +:+ "<image url=" +:+ DQ +:+ "https://x/logo.png" +:+ DQ +:+ " />"))).
Proof.
  split.
  - exact (proj1 (proj1 (export_subtree_alone sample_heap 5 _ 0 eq_refl)
      "Second Page" ["<p>Bye, World!</p>"] ["<text>Bye, World!</text>"]
      eq_refl eq_refl eq_refl)).
  - exact (proj2 (proj1 (proj2 (export_subtree_alone sample_heap 2 _ 0 eq_refl))
      "https://x/logo.png" eq_refl)).
Defined.

(** * Further properties of the code *)

(** ** [getIndexOfChild], [addChild] and [removeChild] *)

Lemma indexOf_first (l1 l2 : list loc) x k :
  x ∉ l1 → indexOf (l1 ++ x :: l2) x k = (k + Z.of_nat (length l1))%Z.
Proof.
  revert k. induction l1 as [|y l1 IH]; intros k Hx; cbn [indexOf app length].
  - rewrite decide_True by done. lia.
  - apply not_elem_of_cons in Hx as [Hne Hx].
    rewrite decide_False by congruence. rewrite (IH _ Hx). lia.
Qed.

Lemma elem_of_split_first (l : list loc) x :
  x ∈ l → ∃ l1 l2, l = l1 ++ x :: l2 ∧ x ∉ l1.
Proof.
  induction l as [|y l IH]; intros Hx; [by apply elem_of_nil in Hx|].
  destruct (decide (y = x)) as [->|Hne].
  - exists [], l. split; [done|apply not_elem_of_nil].
  - apply elem_of_cons in Hx as [->|Hx]; [done|].
    destruct (IH Hx) as (l1 & l2 & -> & Hnin).
    exists (y :: l1), l2. split; [done|].
    apply not_elem_of_cons. split; [congruence|done].
Qed.

(** X1. [getIndexOfChild] returns [-1] exactly when the node is not among
    the children, and otherwise the position of its first occurrence. *)
Theorem getIndexOfChild_first (h : Heap) (this child : loc) (o : Node) :
  h !! this = Some o →
  ∃ i, getIndexOfChild this child h = Some (i, h) ∧
    (child ∉ _children o → i = (-1)%Z) ∧
    (child ∈ _children o →
       ∃ l1 l2, _children o = l1 ++ child :: l2 ∧ (child ∉ l1) ∧
         i = Z.of_nat (length l1)).
Proof.
  intros Ho. exists (indexOf (_children o) child 0). split_and!.
  - unfold getIndexOfChild, children.
    unfold bind, deref, ret. by rewrite Ho.
  - apply indexOf_not_elem.
  - intros Hin. apply elem_of_split_first in Hin as (l1 & l2 & Hl & Hnin).
    exists l1, l2. split_and!; [done..|].
    rewrite Hl, (indexOf_first _ _ _ _ Hnin). lia.
Qed.

Lemma getIndexOfChild_first_witness :
  getIndexOfChild 1 4 sample_heap = Some (2%Z, sample_heap) ∧
  getIndexOfChild 1 6 sample_heap = Some ((-1)%Z, sample_heap).
Proof.
  split.
  - destruct (getIndexOfChild_first sample_heap 1 4 _ eq_refl)
      as (i & Hi & _ & _).
    rewrite Hi. vm_compute in Hi. congruence.
  - destruct (getIndexOfChild_first sample_heap 1 6 _ eq_refl)
      as (i & Hi & Hno & _).
    rewrite Hi, Hno; [reflexivity|].
    by apply (bool_decide_unpack _).
Defined.

(** What [removeChild] does to the children array. *)
Lemma removeChild_eq h v c ov :
  h !! v = Some ov →
  removeChild v c h =
    Some (tt,
      if decide (c ∈ _children ov)
      then <[v := mkNode (_parent ov)
                    (splice1 (_children ov) (indexOf (_children ov) c 0))
                    (cls ov)]> h
      else h).
Proof.
  intros Hv. unfold removeChild, getIndexOfChild, children, set_children.
  unfold bind, deref, ret, get, put. rewrite Hv.
  destruct (decide (c ∈ _children ov)) as [Hin|Hnin].
  - pose proof (indexOf_elem _ _ 0%Z ltac:(lia) Hin) as Hi.
    rewrite (proj2 (Z.ltb_ge _ _) Hi). simpl. rewrite Hv. simpl.
    by rewrite Hv.
  - by rewrite (indexOf_not_elem _ _ _ Hnin).
Qed.

Lemma splice1_first (l1 l2 : list loc) x :
  x ∉ l1 → splice1 (l1 ++ x :: l2) (indexOf (l1 ++ x :: l2) x 0) = l1 ++ l2.
Proof.
  intros Hx. unfold splice1. rewrite (indexOf_first _ _ _ _ Hx).
  rewrite Z.add_0_l, Nat2Z.id. induction l1 as [|y l1 IH]; [done|].
  simpl. f_equal. apply IH. by apply not_elem_of_cons in Hx as [_ ?].
Qed.

(** X2. [removeChild] leaves the store alone when the node is not a child;
    otherwise it removes the first occurrence of the node from the
    children, keeps the others in their order and touches no other node.
    On children without duplicates the node is then no longer a child. *)
Theorem removeChild_first (h : Heap) (this child : loc) (o : Node) :
  h !! this = Some o →
  (child ∉ _children o → removeChild this child h = Some (tt, h)) ∧
  (∀ l1 l2, _children o = l1 ++ child :: l2 → child ∉ l1 →
     ∃ h', removeChild this child h = Some (tt, h') ∧
       h' !! this = Some (mkNode (_parent o) (l1 ++ l2) (cls o)) ∧
       (∀ m, m ≠ this → h' !! m = h !! m) ∧
       (NoDup (_children o) → child ∉ l1 ++ l2)).
Proof.
  intros Ho. split.
  - intros Hnin. rewrite (removeChild_eq _ _ _ _ Ho). by rewrite decide_False.
  - intros l1 l2 Hl Hnin. eexists. split_and!.
    + rewrite (removeChild_eq _ _ _ _ Ho). rewrite decide_True; [done|].
      rewrite Hl. apply elem_of_app. right. apply elem_of_cons. by left.
    + rewrite Hl, (splice1_first _ _ _ Hnin).
      apply list_lookup_insert_eq. by eapply lookup_lt_Some.
    + intros m Hm. by apply list_lookup_insert_ne.
    + rewrite Hl. intros Hnd%NoDup_app. destruct Hnd as (_ & Hdis & Hnd2).
      apply NoDup_cons in Hnd2 as [Hn2 _].
      intros [?|?]%elem_of_app; done.
Qed.

Lemma removeChild_first_witness :
  fst <$> (removeChild 1 3 ;; children 1) sample_heap = Some [2; 4].
Proof.
  destruct (proj2 (removeChild_first sample_heap 1 3 _ eq_refl) [2] [4]
    eq_refl ltac:(by intros ?%list_elem_of_singleton))
    as (h' & Hr & Hl & _).
  unfold bind. rewrite Hr. unfold children, bind, deref, ret. by rewrite Hl.
Defined.

(** X3. [addChild] leaves the store alone when the node is already a child;
    otherwise it appends the node after the existing children and touches
    no other node.  Either way the node is a child afterwards, and children
    without duplicates stay without duplicates. *)
Theorem addChild_appends (h : Heap) (this item : loc) (o : Node) :
  h !! this = Some o →
  ∃ h' o', addChild this item h = Some (tt, h') ∧
    h' !! this = Some o' ∧ _parent o' = _parent o ∧ cls o' = cls o ∧
    (item ∈ _children o → h' = h) ∧
    (item ∉ _children o → _children o' = _children o ++ [item]) ∧
    item ∈ _children o' ∧
    (NoDup (_children o) → NoDup (_children o')) ∧
    (∀ m, m ≠ this → h' !! m = h !! m).
Proof.
  intros Ho. eexists _, _. split; [by apply addChild_eq|].
  split; [by apply lookup_pushed_eq|]. simpl. split_and!; try done.
  - intros Hin. unfold pushed. by rewrite decide_True.
  - intros Hnin. by rewrite decide_False.
  - case_decide; [done|]. apply elem_of_app. right.
    by apply list_elem_of_singleton.
  - intros Hnd. case_decide; [done|]. apply NoDup_app. split; [done|].
    split; [|apply NoDup_singleton].
    by intros x Hx ->%list_elem_of_singleton.
  - intros m Hm. by apply lookup_pushed_ne.
Qed.

Lemma addChild_appends_witness :
  ∃ h', addChild 5 2 sample_heap = Some (tt, h') ∧
    fst <$> children 5 h' = Some [6; 2].
Proof.
  destruct (addChild_appends sample_heap 5 2 _ eq_refl)
    as (h' & o' & Ha & Hl & _ & _ & _ & Hc & _).
  exists h'. split; [exact Ha|].
  unfold children, bind, deref, ret. rewrite Hl. simpl.
  rewrite Hc; [reflexivity|].
  intros ?%list_elem_of_singleton. discriminate.
Defined.

(** X4. [addChild] and [removeChild] undo each other: adding a node that
    was not a child and removing it again gives back the store; removing a
    child from children without duplicates and adding it again moves it to
    the end of the children and keeps the others in their order. *)
Theorem addChild_removeChild (h : Heap) (this child : loc) (o : Node) :
  h !! this = Some o →
  (child ∉ _children o →
     (addChild this child ;; removeChild this child) h = Some (tt, h)) ∧
  (∀ l1 l2, _children o = l1 ++ child :: l2 → NoDup (_children o) →
     ∃ h', (removeChild this child ;; addChild this child) h = Some (tt, h') ∧
       h' !! this = Some (mkNode (_parent o) (l1 ++ l2 ++ [child]) (cls o)) ∧
       (∀ m, m ≠ this → h' !! m = h !! m)).
Proof.
  intros Ho. pose proof (lookup_lt_Some _ _ _ Ho) as Hlt. split.
  - intros Hnin. rewrite (bind_eq _ _ _ _ _ (addChild_eq _ _ child _ Ho)).
    unfold pushed. rewrite decide_False by done.
    erewrite removeChild_eq by by apply list_lookup_insert_eq.
    simpl. rewrite decide_True
      by (apply elem_of_app; right; by apply list_elem_of_singleton).
    rewrite (splice1_first _ [] _ Hnin), app_nil_r, list_insert_insert_eq.
    rewrite list_insert_id; [done|]. by destruct o.
  - intros l1 l2 Hl Hnd.
    assert ((child ∉ l1) ∧ (child ∉ l2)) as [Hn1 Hn2].
    { rewrite Hl in Hnd. apply NoDup_app in Hnd as (_ & Hdis & Hnd2).
      apply NoDup_cons in Hnd2 as [? _]. split; [|done].
      intros Hin. apply (Hdis _ Hin). apply elem_of_cons. by left. }
    eexists. split_and!.
    + rewrite (bind_eq _ _ _ _ _ (removeChild_eq _ _ child _ Ho)).
      rewrite decide_True
        by (rewrite Hl; apply elem_of_app; right; apply elem_of_cons; by left).
      rewrite Hl, (splice1_first _ _ _ Hn1).
      erewrite addChild_eq by by apply list_lookup_insert_eq.
      unfold pushed. simpl. rewrite decide_False; [done|].
      by intros [?|?]%elem_of_app.
    + rewrite list_insert_insert_eq, <- app_assoc.
      by apply list_lookup_insert_eq.
    + intros m Hm. rewrite list_insert_insert_eq.
      by apply list_lookup_insert_ne.
Qed.

Lemma addChild_removeChild_witness :
  fst <$> (removeChild 1 2 ;; addChild 1 2 ;; children 1) sample_heap =
    Some [3; 4; 2].
Proof.
  destruct (proj2 (addChild_removeChild sample_heap 1 2 _ eq_refl) [] [3; 4]
    eq_refl ltac:(by apply (bool_decide_unpack _)))
    as (h' & Hr & Hl & _).
  unfold bind in *. destruct (removeChild 1 2 sample_heap) as [[[] h1]|]; [|done].
  rewrite Hr. unfold children, bind, deref, ret. by rewrite Hl.
Defined.

(** ** The public operations on built stores *)

(** X5. On a store built by the public operations the parent setter does
    the following and nothing else: [n.parent = null] changes nothing;
    [n.parent = p] changes nothing when [n] is already a child of [p], and
    otherwise appends [n] to [p]'s children. *)
Theorem set_parent_on_built (ops : list Op) (h : Heap) (n : loc) :
  built ops h → n < length h →
  set_parent n None h = Some (tt, h) ∧
  (∀ p op, h !! p = Some op →
     (n ∈ _children op → set_parent n (Some p) h = Some (tt, h)) ∧
     (n ∉ _children op →
        set_parent n (Some p) h =
          Some (tt, <[p := mkNode None (_children op ++ [n]) (cls op)]> h))).
Proof.
  intros Hb Hn. pose proof (built_wf _ _ Hb) as Hwf.
  apply lookup_lt_is_Some in Hn as [on Hn].
  pose proof (wf_parent _ Hwf _ _ Hn) as Hpn. split.
  - by rewrite (set_parent_eq _ _ _ None Hn Hpn).
  - intros p op Hp. rewrite (set_parent_eq _ _ _ (Some p) Hn Hpn).
    rewrite (addChild_eq _ _ _ _ Hp). unfold pushed.
    rewrite (wf_parent _ Hwf _ _ Hp).
    split; intros ?; [by rewrite decide_True|by rewrite decide_False].
Qed.

Lemma set_parent_on_built_witness :
  set_parent 6 None sample_heap = Some (tt, sample_heap) ∧
  set_parent 6 (Some 5) sample_heap = Some (tt, sample_heap).
Proof.
  destruct (set_parent_on_built sample_ops sample_heap 6 eq_refl
    ltac:(simpl; lia)) as [H0 H1].
  split; [exact H0|].
  apply (proj1 (H1 5 _ eq_refl)). by apply list_elem_of_singleton.
Defined.

(** X6. In every store built by the public operations, every child is an
    allocated node and no node has the same child twice. *)
Theorem built_children_sound (ops : list Op) (h : Heap) (n : loc) (o : Node) :
  built ops h → h !! n = Some o →
  (∀ c, c ∈ _children o → is_Some (h !! c)) ∧ NoDup (_children o).
Proof.
  intros Hb Hn. pose proof (built_wf _ _ Hb) as Hwf. split.
  - intros c Hc. apply lookup_lt_is_Some. by apply (wf_range _ Hwf _ _ _ Hn).
  - by apply (wf_nodup _ Hwf _ _ Hn).
Qed.

Lemma built_children_sound_witness :
  (∀ c, c ∈ [2; 3; 4] → is_Some (sample_heap !! c)) ∧ NoDup [2; 3; 4].
Proof.
  exact (built_children_sound sample_ops sample_heap 1 _ eq_refl eq_refl).
Defined.

(** ** Nothing is ever removed *)

Lemma grows_refl h : grows h h.
Proof. intros n o Hn. by exists o. Qed.

Lemma grows_trans h1 h2 h3 : grows h1 h2 → grows h2 h3 → grows h1 h3.
Proof.
  intros H12 H23 n o Hn.
  destruct (H12 _ _ Hn) as (o2 & Hn2 & Hc2 & Hp2 & Hpre2).
  destruct (H23 _ _ Hn2) as (o3 & Hn3 & Hc3 & Hp3 & Hpre3).
  exists o3. split_and!; [done|by rewrite Hc3|by rewrite Hp3|by etrans].
Qed.

Lemma grows_alloc h o : grows h (h ++ [o]).
Proof.
  intros n on Hn. exists on. split_and!; [|done..].
  rewrite lookup_app_l; [done|by eapply lookup_lt_Some].
Qed.

Lemma grows_pushed h v n ov : h !! v = Some ov → grows h (pushed v n ov h).
Proof.
  intros Hv m o Hm. destruct (decide (m = v)) as [->|Hne].
  - rewrite Hv in Hm. injection Hm as <-.
    rewrite (lookup_pushed_eq _ _ _ _ Hv). eexists. split; [done|].
    simpl. split_and!; [done..|].
    case_decide; [done|]. by apply prefix_app_r.
  - rewrite (lookup_pushed_ne _ _ _ _ _ Hne). by exists o.
Qed.

Lemma set_parent_grows h n v h' :
  wf h → set_parent n v h = Some (tt, h') → grows h h'.
Proof.
  intros Hwf Hs. destruct (set_parent_wf _ _ _ _ Hwf Hs) as (on & Hn & Hv).
  destruct v as [p|].
  - destruct Hv as (op & Hp & ->). by apply grows_pushed.
  - subst. apply grows_refl.
Qed.

Lemma new_node_grows h c v n h' :
  wf h → new_node c v h = Some (n, h') → grows h h'.
Proof.
  intros Hwf Hn. unfold new_node, alloc in Hn.
  apply bind_Some in Hn as (n1 & h1 & [= <- <-] & Hn).
  apply bind_Some in Hn as ([] & h2 & Hs & [= _ <-]).
  eapply grows_trans; [apply grows_alloc|].
  eapply set_parent_grows; [|done]. by apply wf_alloc.
Qed.

Lemma step_grows op h h' : wf h → step op h = Some (tt, h') → grows h h'.
Proof.
  intros Hwf. destruct op as [t|u|c|t|n t|p c|n v]; simpl.
  1-4: unfold new_Notebook, new_ImageCell, new_SourceCodeCell, new_TextCell;
       intros (x & h1 & Hn & [= <-])%bind_Some;
       by apply (new_node_grows _ _ _ _ _ Hwf) in Hn.
  - intros (x & h1 & Hn & [= <-])%bind_Some. unfold createPage in Hn.
    apply bind_Some in Hn as (o & h2 & [Ho ->]%deref_Some & Hn).
    destruct (cls o); try done.
    by apply (new_node_grows _ _ _ _ _ Hwf) in Hn.
  - unfold addCell. intros (o & h2 & [Ho ->]%deref_Some & Hs)%bind_Some.
    destruct (cls o); try done. by apply (set_parent_grows _ _ _ _ Hwf) in Hs.
  - by apply set_parent_grows.
Qed.

(** X7. No public operation ever removes anything: whatever program runs
    on a built store, every node that existed is still there with its
    class and attributes, and its earlier children are still its first
    children, in the same order. *)
Theorem children_only_grow (ops more : list Op) (h h' : Heap) :
  built ops h → for_of more step h = Some (tt, h') → grows h h'.
Proof.
  intros Hb. pose proof (built_wf _ _ Hb) as Hwf. clear Hb.
  revert h Hwf. induction more as [|op more IH]; intros h Hwf; simpl.
  - unfold ret. intros [= <-]. apply grows_refl.
  - intros ([] & h1 & Hs & Hr)%bind_Some.
    eapply grows_trans; [by eapply step_grows|].
    apply IH; [by eapply step_wf|done].
Qed.

Lemma children_only_grow_witness :
  ∃ h', for_of [SetParent 4 None; SetParent 4 (Some 5); SetParent 2 None]
          step sample_heap = Some (tt, h') ∧
    grows sample_heap h'.
Proof.
  destruct (for_of [SetParent 4 None; SetParent 4 (Some 5); SetParent 2 None]
    step sample_heap) as [[[] h']|] eqn:Hr.
  - exists h'. split; [reflexivity|].
    exact (children_only_grow sample_ops _ sample_heap h' eq_refl Hr).
  - vm_compute in Hr. discriminate Hr.
Defined.

(** ** Trees built the driver's way *)

Lemma layered_nil : layered [].
Proof. intros n o c. by rewrite lookup_nil. Qed.

Lemma layered_alloc h c : layered h → layered (h ++ [mkNode None [] c]).
Proof.
  intros Hl n o c' [[_ Hn]|[_ <-]]%lookup_snoc_Some Hc.
  - destruct (Hl _ _ _ Hn Hc) as (oc & Hoc & Hlev). exists oc. split; [|done].
    rewrite lookup_app_l; [done|by eapply lookup_lt_Some].
  - by apply elem_of_nil in Hc.
Qed.

Lemma layered_pushed h v n ov on :
  layered h → h !! v = Some ov → h !! n = Some on →
  level (cls on) < level (cls ov) → layered (pushed v n ov h).
Proof.
  intros Hl Hv Hn Hlev.
  assert (Hkeep : ∀ (c : loc) oc, h !! c = Some oc →
    ∃ oc', pushed v n ov h !! c = Some oc' ∧ cls oc' = cls oc).
  { intros c oc Hc. destruct (decide (c = v)) as [->|Hne].
    - rewrite (lookup_pushed_eq _ _ _ _ Hv). eexists. split; [done|].
      rewrite Hv in Hc. by injection Hc as <-.
    - rewrite (lookup_pushed_ne _ _ _ _ _ Hne). by exists oc. }
  intros m o c Hm Hc. destruct (decide (m = v)) as [->|Hne].
  - rewrite (lookup_pushed_eq _ _ _ _ Hv) in Hm. injection Hm as <-.
    simpl in *. case_decide as Hin.
    + destruct (Hl _ _ _ Hv Hc) as (oc & Hoc & ?).
      destruct (Hkeep _ _ Hoc) as (oc' & ? & Heq). exists oc'. by rewrite Heq.
    + apply elem_of_app in Hc as [Hc| ->%list_elem_of_singleton].
      * destruct (Hl _ _ _ Hv Hc) as (oc & Hoc & ?).
        destruct (Hkeep _ _ Hoc) as (oc' & ? & Heq). exists oc'. by rewrite Heq.
      * destruct (Hkeep _ _ Hn) as (oc' & ? & Heq). exists oc'. by rewrite Heq.
  - rewrite (lookup_pushed_ne _ _ _ _ _ Hne) in Hm.
    destruct (Hl _ _ _ Hm Hc) as (oc & Hoc & ?).
    destruct (Hkeep _ _ Hoc) as (oc' & ? & Heq). exists oc'. by rewrite Heq.
Qed.

Lemma step_layered op h h' :
  wf h → layered h → driver_step op h = true →
  step op h = Some (tt, h') → layered h'.
Proof.
  intros Hwf Hl. destruct op as [t|u|c|t|n t|p c|n v]; simpl; intros Hd.
  1-4: unfold new_Notebook, new_ImageCell, new_SourceCodeCell, new_TextCell;
       intros (x & h1 & Hn & [= <-])%bind_Some;
       apply (new_node_Some _ _ _ _ _ Hwf) in Hn as (_ & _ & _ & ->);
       by apply layered_alloc.
  - intros (x & h1 & Hn & [= <-])%bind_Some. unfold createPage in Hn.
    apply bind_Some in Hn as (o & h2 & [Ho ->]%deref_Some & Hn).
    destruct (cls o) eqn:Hc; try done. unfold new_Page in Hn.
    apply (new_node_Some _ _ _ _ _ Hwf) in Hn as (-> & _ & _ & Hh1).
    assert (Ho1 : (h ++ [mkNode None [] (Page t)]) !! n = Some o).
    { rewrite lookup_app_l; [done|by eapply lookup_lt_Some]. }
    rewrite Ho1 in Hh1. rewrite Hh1.
    eapply layered_pushed; [by apply layered_alloc|done| |].
    + by apply list_lookup_middle.
    + rewrite Hc. simpl. lia.
  - unfold addCell. intros (o & h2 & [Ho ->]%deref_Some & Hs)%bind_Some.
    destruct (cls o) eqn:Hc; try done.
    destruct (set_parent_wf _ _ _ _ Hwf Hs) as (oc & Hoc & op & Hp & ->).
    rewrite Hoc in Hd. rewrite Ho in Hp. injection Hp as <-.
    eapply layered_pushed; [done..|]. rewrite Hc.
    destruct (cls oc); try done; simpl; lia.
  - done.
Qed.

Lemma driver_style_layered ops h0 h :
  wf h0 → layered h0 → driver_style ops h0 = true →
  for_of ops step h0 = Some (tt, h) → layered h.
Proof.
  revert h0. induction ops as [|op ops IH]; intros h0 Hwf Hl; simpl.
  - unfold ret. by intros _ [= <-].
  - intros [Hd Hrest]%andb_true_iff ([] & h1 & Hs & Hr)%bind_Some.
    rewrite Hs in Hrest.
    eapply (IH h1); [by eapply step_wf|by eapply step_layered|done..].
Qed.

Lemma tree_below_S d h n :
  tree_below (S d) h n =
    match h !! n with
    | Some o => forallb (tree_below d h) (_children o)
    | None => false
    end.
Proof. reflexivity. Qed.

Lemma layered_tree_below h k :
  layered h → ∀ (n : loc) o, h !! n = Some o → level (cls o) ≤ k →
  tree_below (S k) h n = true.
Proof.
  intros Hl. induction k as [|k IH]; intros n o Hn Hk;
    rewrite tree_below_S, Hn.
  - assert (Hno : ∀ c, c ∉ _children o).
    { intros c Hc. destruct (Hl _ _ _ Hn Hc) as (? & _ & ?). lia. }
    destruct (_children o) as [|c cs]; [done|].
    exfalso. apply (Hno c). by left.
  - assert (Hall : ∀ c, c ∈ _children o → tree_below (S k) h c = true).
    { intros c Hc. destruct (Hl _ _ _ Hn Hc) as (oc & Hoc & ?).
      apply (IH c oc Hoc). lia. }
    induction (_children o) as [|c cs IHcs]; [done|].
    cbn [forallb]. rewrite (Hall c) by by left. simpl.
    apply IHcs. intros c' Hc'. apply Hall. by right.
Qed.

(** X8. On a store built the driver's way (constructors, [createPage],
    [addCell] of a cell, no direct parent assignment) notebooks hold pages
    and pages hold cells, so [export] on any node returns within call
    depth three, with either exporter and whatever the buffer holds. *)
Theorem driver_style_export_returns (ops : list Op) (h : Heap) (n : loc) :
  driver_style ops [] = true → built ops h → n < length h →
  (∀ e : HtmlExporter.t, ∃ e', export 3 n (h, e) = Some (tt, (h, e'))) ∧
  (∀ e : XmlExporter.t, ∃ e', export 3 n (h, e) = Some (tt, (h, e'))).
Proof.
  intros Hd Hb [o Hn]%lookup_lt_is_Some.
  pose proof (driver_style_layered _ _ _ wf_nil layered_nil Hd Hb) as Hl.
  assert (Ht : tree_below 3 h n = true).
  { apply (layered_tree_below h 2 Hl n o Hn). destruct (cls o); simpl; lia. }
  split; intros e.
  - destruct (tree_below_lines html_markup _ _ _ Ht) as [ls Hls].
    pose proof (export_html 3 n h e) as He. unfold emits in He.
    rewrite Hls in He. eauto.
  - destruct (tree_below_lines xml_markup _ _ _ Ht) as [ls Hls].
    pose proof (export_xml 3 n h e) as He. unfold emits in He.
    rewrite Hls in He. eauto.
Qed.

Lemma driver_style_export_returns_witness :
  ∃ e', export 3 0 (sample_heap, XmlExporter.new) = Some (tt, (sample_heap, e')).
Proof.
  assert (Hb : built (take 11 sample_ops) sample_heap) by reflexivity.
  exact (proj2 (driver_style_export_returns (take 11 sample_ops) sample_heap 0
    eq_refl Hb ltac:(simpl; lia)) XmlExporter.new).
Defined.

(** ** A node attached under its own descendant *)

Lemma all_lines_None f cs (c : loc) :
  c ∈ cs → f c = None → all_lines f cs = None.
Proof.
  intros Hc Hf. induction cs as [|x cs IH]; [by apply elem_of_nil in Hc|].
  cbn [all_lines]. apply elem_of_cons in Hc as [<-|Hc].
  - by rewrite Hf.
  - rewrite (IH Hc). by destruct (f x).
Qed.

Lemma subtree_lines_S m d h n :
  subtree_lines m (S d) h n =
    match h !! n with
    | None => None
    | Some o =>
      match cls o with
      | Notebook t =>
        match all_lines (subtree_lines m d h) (_children o) with
        | Some ls => Some (notebook_open m t ++ ls ++ [notebook_close m])
        | None => None
        end
      | Page t =>
        match all_lines (subtree_lines m d h) (_children o) with
        | Some ls => Some (page_open m t ++ ls ++ [page_close m])
        | None => None
        end
      | ImageCell u => Some [image_line m u]
      | SourceCodeCell c => Some [code_line m c]
      | TextCell t => Some [text_line m t]
      end
    end.
Proof. reflexivity. Qed.

Lemma cycle_no_lines m h (n p : loc) on op :
  h !! n = Some on → h !! p = Some op →
  is_cell (cls on) = false → is_cell (cls op) = false →
  p ∈ _children on → n ∈ _children op →
  ∀ fuel, subtree_lines m fuel h n = None ∧ subtree_lines m fuel h p = None.
Proof.
  intros Hn Hp Hcn Hcp Hpn Hnp. induction fuel as [|fuel [IHn IHp]]; [done|].
  rewrite !subtree_lines_S, Hn, Hp.
  rewrite (all_lines_None _ _ _ Hpn IHp), (all_lines_None _ _ _ Hnp IHn).
  by destruct (cls on), (cls op).
Qed.

(** X9. The parent setter has no cycle check.  On a built store,
    [notebook.parent = page] for one of the notebook's own pages returns
    and makes the notebook a child of that page; [export] on the notebook
    then recurses without end: it returns at no call depth, with either
    exporter. *)
Theorem reparent_under_own_page (ops : list Op) (h : Heap) (n p : loc)
    (on op : Node) (tn tp : string) :
  built ops h →
  h !! n = Some on → cls on = Notebook tn →
  h !! p = Some op → cls op = Page tp → p ∈ _children on →
  ∃ h', set_parent n (Some p) h = Some (tt, h') ∧
    (∃ op', h' !! p = Some op' ∧ n ∈ _children op') ∧
    ∀ fuel,
      (∀ e : HtmlExporter.t, export fuel n (h', e) = None) ∧
      (∀ e : XmlExporter.t, export fuel n (h', e) = None).
Proof.
  intros Hb Hn Hcn Hp Hcp Hpn. pose proof (built_wf _ _ Hb) as Hwf.
  exists (pushed p n op h).
  assert (Hne : n ≠ p) by (intros ->; congruence).
  pose proof (lookup_pushed_eq p n op h Hp) as Hp'.
  assert (Hn' : pushed p n op h !! n = Some on) by by rewrite lookup_pushed_ne.
  set (cs' := if decide (n ∈ _children op) then _children op
              else _children op ++ [n]) in *.
  assert (Hin : n ∈ cs').
  { unfold cs'. case_decide; [done|]. apply elem_of_app. right.
    by apply list_elem_of_singleton. }
  split_and!.
  - rewrite (set_parent_eq _ _ _ (Some p) Hn (wf_parent _ Hwf _ _ Hn)).
    by apply addChild_eq.
  - eexists. split; [exact Hp'|exact Hin].
  - intros fuel.
    assert (Hnone : ∀ m, subtree_lines m fuel (pushed p n op h) n = None).
    { intros m. eapply (cycle_no_lines m _ n p); try done.
      - by rewrite Hcn.
      - simpl. by rewrite Hcp. }
    split; intros e.
    + pose proof (export_html fuel n (pushed p n op h) e) as He.
      unfold emits in He. by rewrite Hnone in He.
    + pose proof (export_xml fuel n (pushed p n op h) e) as He.
      unfold emits in He. by rewrite Hnone in He.
Qed.

Lemma reparent_under_own_page_witness :
  ∃ h', set_parent 0 (Some 1) sample_heap = Some (tt, h') ∧
    ∀ fuel, export fuel 0 (h', HtmlExporter.new) = None.
Proof.
  destruct (reparent_under_own_page sample_ops sample_heap 0 1 _ _
    "My Coding Ideas" "First Page" eq_refl eq_refl eq_refl eq_refl eq_refl
    ltac:(by left)) as (h' & Hs & _ & Hx).
  exists h'. split; [exact Hs|]. intros fuel. apply (Hx fuel).
Defined.

(** ** The serialization of a node from those of its children *)

Lemma all_lines_Some f (cs : list loc) ls :
  all_lines f cs = Some ls →
  ∃ lss, Forall2 (λ c l, f c = Some l) cs lss ∧ ls = concat lss.
Proof.
  revert ls. induction cs as [|c cs IH]; intros ls; cbn [all_lines].
  - intros [= <-]. exists []. split; [constructor|done].
  - destruct (f c) as [l|] eqn:Hc; [|done].
    destruct (all_lines f cs) as [ls'|]; [|done]. intros [= <-].
    destruct (IH _ eq_refl) as (lss & Hall & ->).
    exists (l :: lss). split; [by constructor|done].
Qed.

Lemma join_lines_concat lss :
  join_lines (concat lss) = concat_strings (map join_lines lss).
Proof.
  induction lss as [|l lss IH]; [done|].
  cbn [concat map concat_strings]. by rewrite join_lines_app, IH.
Qed.

(** X10. The HTML of a notebook or page is its opening lines, then the
    HTML each child gives when exported on its own into a fresh exporter,
    in the order of the children, then its closing line.  The XML is built
    the same way from what each child gives after the preamble. *)
Theorem export_composes (h : Heap) (n : loc) (o : Node) (fuel : nat) :
  h !! n = Some o → is_cell (cls o) = false →
  (∀ e', export (S fuel) n (h, HtmlExporter.new) = Some (tt, (h, e')) →
     ∃ parts,
       Forall2 (λ c part, export fuel c (h, HtmlExporter.new) =
                  Some (tt, (h, HtmlExporter.mk part))) (_children o) parts ∧
       (∀ t, cls o = Notebook t →
          HtmlExporter.html e' =
            (LF +:+ "<main class=" +:+ DQ +:+ "notebook" +:+ DQ +:+ ">") +:+
            (LF +:+ "<h1>" +:+ t +:+ "</h1>") +:+
            concat_strings parts +:+ (LF +:+ "</main>")) ∧
       (∀ t, cls o = Page t →
          HtmlExporter.html e' =
            (LF +:+ "<section class=" +:+ DQ +:+ "page" +:+ DQ +:+ ">") +:+
            (LF +:+ "<h2>" +:+ t +:+ "</h2>") +:+
            concat_strings parts +:+ (LF +:+ "</section>"))) ∧
  (∀ e', export (S fuel) n (h, XmlExporter.new) = Some (tt, (h, e')) →
     ∃ parts,
       Forall2 (λ c part, export fuel c (h, XmlExporter.new) =
                  Some (tt, (h, XmlExporter.mk (XmlExporter.preamble +:+ part))))
         (_children o) parts ∧
       (∀ t, cls o = Notebook t →
          XmlExporter.xml e' =
            XmlExporter.preamble +:+
            (LF +:+ "<notebook title=" +:+ DQ +:+ t +:+ DQ +:+ ">") +:+
            concat_strings parts +:+ (LF +:+ "</notebook>")) ∧
       (∀ t, cls o = Page t →
          XmlExporter.xml e' =
            XmlExporter.preamble +:+
            (LF +:+ "<page title=" +:+ DQ +:+ t +:+ DQ +:+ ">") +:+
            concat_strings parts +:+ (LF +:+ "</page>"))).
Proof.
  intros Hn Hcell.
  assert (Hlines : ∀ m ls, subtree_lines m (S fuel) h n = Some ls →
    ∃ lss, Forall2 (λ c l, subtree_lines m fuel h c = Some l) (_children o) lss ∧
      (∀ t, cls o = Notebook t →
         ls = notebook_open m t ++ concat lss ++ [notebook_close m]) ∧
      (∀ t, cls o = Page t →
         ls = page_open m t ++ concat lss ++ [page_close m])).
  { intros m ls. rewrite subtree_lines_S, Hn.
    destruct (all_lines (subtree_lines m fuel h) (_children o)) as [ls'|] eqn:Ha.
    - destruct (all_lines_Some _ _ _ Ha) as (lss & Hall & ->).
      intros Hls. exists lss. split; [done|].
      split; intros t Hc; rewrite Hc in Hls; by injection Hls as <-.
    - by destruct (cls o). }
  split; intros e' He'.
  - pose proof (export_html (S fuel) n h HtmlExporter.new) as He.
    unfold emits in He. rewrite He' in He.
    destruct (subtree_lines html_markup (S fuel) h n) as [ls|] eqn:Hls; [|done].
    injection He as ->. destruct (Hlines _ _ Hls) as (lss & Hall & Hnb & Hpg).
    exists (map join_lines lss). split_and!.
    + apply Forall2_fmap_r. eapply Forall2_impl; [exact Hall|].
      intros c l Hc. simpl. by apply export_html_fresh.
    + intros t Hc. rewrite (Hnb t Hc). simpl.
      rewrite !join_lines_app, join_lines_concat. cbn [join_lines].
      by rewrite ?append_assoc, ?append_nil_r.
    + intros t Hc. rewrite (Hpg t Hc). simpl.
      rewrite !join_lines_app, join_lines_concat. cbn [join_lines].
      by rewrite ?append_assoc, ?append_nil_r.
  - pose proof (export_xml (S fuel) n h XmlExporter.new) as He.
    unfold emits in He. rewrite He' in He.
    destruct (subtree_lines xml_markup (S fuel) h n) as [ls|] eqn:Hls; [|done].
    injection He as ->. destruct (Hlines _ _ Hls) as (lss & Hall & Hnb & Hpg).
    exists (map join_lines lss). split_and!.
    + apply Forall2_fmap_r. eapply Forall2_impl; [exact Hall|].
      intros c l Hc. simpl. by apply export_xml_fresh.
    + intros t Hc. rewrite (Hnb t Hc). simpl.
      rewrite !join_lines_app, join_lines_concat. cbn [join_lines].
      by rewrite ?append_assoc, ?append_nil_r.
    + intros t Hc. rewrite (Hpg t Hc). simpl.
      rewrite !join_lines_app, join_lines_concat. cbn [join_lines].
      by rewrite ?append_assoc, ?append_nil_r.
Qed.

Lemma export_composes_witness :
  ∃ e' parts,
    export 3 0 (sample_heap, HtmlExporter.new) = Some (tt, (sample_heap, e')) ∧
    Forall2 (λ c part, export 2 c (sample_heap, HtmlExporter.new) =
               Some (tt, (sample_heap, HtmlExporter.mk part))) [1; 5] parts ∧
    HtmlExporter.html e' =
      (LF +:+ "<main class=" +:+ DQ +:+ "notebook" +:+ DQ +:+ ">") +:+
      (LF +:+ "<h1>" +:+ "My Coding Ideas" +:+ "</h1>") +:+
      concat_strings parts +:+ (LF +:+ "</main>").
Proof.
  destruct (export 3 0 (sample_heap, HtmlExporter.new))
    as [[[] [h' e']]|] eqn:He.
  - pose proof (export_html_keeps_tree 3 0 _ _ _ _ _ He) as ->.
    destruct (proj1 (export_composes sample_heap 0 _ 2 eq_refl eq_refl) e' He)
      as (parts & Hall & Hnb & _).
    exists e', parts. split; [reflexivity|]. split; [exact Hall|].
    exact (Hnb _ eq_refl).
  - vm_compute in He. discriminate He.
Defined.

(** ** Adding a cell, then exporting *)

Lemma cell_line_pushed m h v n ov (c : loc) :
  h !! v = Some ov → cell_line m (pushed v n ov h) c = cell_line m h c.
Proof.
  intros Hv. unfold cell_line. destruct (decide (c = v)) as [->|Hne].
  - by rewrite (lookup_pushed_eq _ _ _ _ Hv), Hv.
  - by rewrite (lookup_pushed_ne _ _ _ _ _ Hne).
Qed.

Lemma page_lines_after_push m k h (p c : loc) op t ls l :
  h !! p = Some op → cls op = Page t → c ∉ _children op →
  mapM (cell_line m h) (_children op) = Some ls →
  cell_line m h c = Some l →
  subtree_lines m (S (S k)) (pushed p c op h) p =
    Some (page_open m t ++ (ls ++ [l]) ++ [page_close m]).
Proof.
  intros Hp Hc Hnin Hls Hl.
  pose proof (lookup_pushed_eq p c op h Hp) as Hp'.
  rewrite decide_False in Hp' by done.
  apply (page_lines m k _ p _ t (ls ++ [l]) Hp' Hc). simpl.
  apply mapM_Some. apply Forall2_app.
  - apply mapM_Some in Hls. eapply Forall2_impl; [exact Hls|].
    intros x y Hx. simpl. by rewrite cell_line_pushed.
  - constructor; [|constructor]. by rewrite cell_line_pushed.
Qed.

(** X11. Adding a cell that a page does not hold yet puts the cell's line
    last among the page's cell lines, just before the closing marker, in
    the HTML as in the XML; the lines of the cells already there are as
    before. *)
Theorem addCell_then_export (ops : list Op) (h : Heap) (p c : loc) (op : Node)
    (t : string) (k : nat) :
  built ops h → h !! p = Some op → cls op = Page t → c ∉ _children op →
  (∀ ls l, mapM (cell_line html_markup h) (_children op) = Some ls →
     cell_line html_markup h c = Some l →
     ∃ h', addCell p c h = Some (tt, h') ∧
       export (2 + k) p (h', HtmlExporter.new) =
         Some (tt, (h', HtmlExporter.mk (join_lines
           (["<section class=" +:+ DQ +:+ "page" +:+ DQ +:+ ">";
             "<h2>" +:+ t +:+ "</h2>"] ++ (ls ++ [l]) ++ ["</section>"]))))) ∧
  (∀ ls l, mapM (cell_line xml_markup h) (_children op) = Some ls →
     cell_line xml_markup h c = Some l →
     ∃ h', addCell p c h = Some (tt, h') ∧
       export (2 + k) p (h', XmlExporter.new) =
         Some (tt, (h', XmlExporter.mk (XmlExporter.preamble +:+ join_lines
           (["<page title=" +:+ DQ +:+ t +:+ DQ +:+ ">"] ++ (ls ++ [l])
              ++ ["</page>"]))))).
Proof.
  intros Hb Hp Hc Hnin. pose proof (built_wf _ _ Hb) as Hwf.
  assert (Hadd : ∀ m l, cell_line m h c = Some l →
    addCell p c h = Some (tt, pushed p c op h)).
  { intros m l Hl. unfold cell_line in Hl.
    destruct (h !! c) as [oc|] eqn:Hoc; [|done].
    unfold addCell. rewrite (bind_eq _ _ _ _ _ (deref_eq _ _ _ Hp)), Hc.
    rewrite (set_parent_eq _ _ _ (Some p) Hoc (wf_parent _ Hwf _ _ Hoc)).
    by apply addChild_eq. }
  split; intros ls l Hls Hl; exists (pushed p c op h);
    (split; [by eapply Hadd|]).
  - exact (export_html_fresh _ _ _ _
      (page_lines_after_push _ k _ _ _ _ _ _ _ Hp Hc Hnin Hls Hl)).
  - exact (export_xml_fresh _ _ _ _
      (page_lines_after_push _ k _ _ _ _ _ _ _ Hp Hc Hnin Hls Hl)).
Qed.

Lemma addCell_then_export_witness :
  ∃ h', addCell 5 4 sample_heap = Some (tt, h') ∧
    export 2 5 (h', HtmlExporter.new) =
      Some (tt, (h', HtmlExporter.mk (join_lines
        ["<section class=" +:+ DQ +:+ "page" +:+ DQ +:+ ">";
         "<h2>Second Page</h2>"; "<p>Bye, World!</p>"; "<p>Hello, World!</p>";
         "</section>"]))).
Proof.
  exact (proj1 (addCell_then_export sample_ops sample_heap 5 4 _ "Second Page" 0
    eq_refl eq_refl eq_refl
    ltac:(by intros ?%list_elem_of_singleton))
    ["<p>Bye, World!</p>"] "<p>Hello, World!</p>" eq_refl eq_refl).
Defined.

(** ** The call depth *)

Lemma all_lines_ext f g (cs : list loc) ls :
  (∀ c l, f c = Some l → g c = Some l) →
  all_lines f cs = Some ls → all_lines g cs = Some ls.
Proof.
  intros Hfg. revert ls. induction cs as [|c cs IH]; intros ls; [done|].
  cbn [all_lines]. destruct (f c) as [l|] eqn:Hc; [|done].
  destruct (all_lines f cs) as [ls'|]; [|done]. intros [= <-].
  by rewrite (Hfg _ _ Hc), (IH _ eq_refl).
Qed.

Lemma subtree_lines_mono m d h n ls :
  subtree_lines m d h n = Some ls → subtree_lines m (S d) h n = Some ls.
Proof.
  revert n ls. induction d as [|d IH]; intros n ls; [done|].
  rewrite (subtree_lines_S m (S d)), (subtree_lines_S m d).
  destruct (h !! n) as [o|]; [|done].
  destruct (cls o); try done.
  - destruct (all_lines (subtree_lines m d h) (_children o)) as [ls'|] eqn:Ha;
      [|done].
    by rewrite (all_lines_ext _ _ _ _ (IH) Ha).
  - destruct (all_lines (subtree_lines m d h) (_children o)) as [ls'|] eqn:Ha;
      [|done].
    by rewrite (all_lines_ext _ _ _ _ (IH) Ha).
Qed.

(** The call depth only has to be large enough: when [export] returns at
    some depth, it returns the same exporter at every greater depth, for
    both exporters. *)
Lemma export_depth_irrelevant (d k : nat) (n : loc) (h : Heap) :
  (∀ (e : HtmlExporter.t) r,
     export d n (h, e) = Some r → export (d + k) n (h, e) = Some r) ∧
  (∀ (e : XmlExporter.t) r,
     export d n (h, e) = Some r → export (d + k) n (h, e) = Some r).
Proof.
  assert (Hmono : ∀ m ls, subtree_lines m d h n = Some ls →
    subtree_lines m (d + k) h n = Some ls).
  { intros m ls Hls. induction k as [|k IH].
    - by rewrite Nat.add_0_r.
    - rewrite Nat.add_succ_r. by apply subtree_lines_mono. }
  split; intros e r.
  - pose proof (export_html d n h e) as He.
    pose proof (export_html (d + k) n h e) as He'. unfold emits in *.
    rewrite He. destruct (subtree_lines html_markup d h n) as [ls|] eqn:Hls;
      [|done].
    intros <-. by rewrite He', (Hmono _ _ Hls).
  - pose proof (export_xml d n h e) as He.
    pose proof (export_xml (d + k) n h e) as He'. unfold emits in *.
    rewrite He. destruct (subtree_lines xml_markup d h n) as [ls|] eqn:Hls;
      [|done].
    intros <-. by rewrite He', (Hmono _ _ Hls).
Qed.

(** ** Constructors without a parent *)

(** X12. On a built store, a constructor called without a parent
    ([new Notebook(title)], [new ImageCell(url)], [new SourceCodeCell(code)],
    [new TextCell(text)]) returns a newly allocated node that has no
    children and is no node's child, and leaves every existing node as it
    was. *)
Theorem constructor_detached (ops : list Op) (h : Heap) (c : NodeClass) :
  built ops h →
  ∃ this h', new_node c None h = Some (this, h') ∧
    h !! this = None ∧
    h' = h ++ [mkNode None [] c] ∧
    h' !! this = Some (mkNode None [] c) ∧
    (∀ (n : loc) o, h' !! n = Some o → this ∉ _children o).
Proof.
  intros Hb. pose proof (built_wf _ _ Hb) as Hwf.
  set (h1 := h ++ [mkNode None [] c]).
  assert (Hn : h1 !! length h = Some (mkNode None [] c))
    by by apply list_lookup_middle.
  exists (length h), h1. split_and!.
  - unfold new_node, alloc. unfold bind at 1. fold h1. unfold bind.
    by rewrite (set_parent_eq _ _ _ None Hn eq_refl).
  - by apply lookup_ge_None_2.
  - done.
  - done.
  - intros n o [[_ Ho]|[_ <-]]%lookup_snoc_Some Hin.
    + pose proof (wf_range _ Hwf _ _ _ Ho Hin). lia.
    + by apply elem_of_nil in Hin.
Qed.

Lemma constructor_detached_witness :
  ∃ h', new_TextCell "x" sample_heap = Some (7, h') ∧
    ∀ (n : loc) o, h' !! n = Some o → 7 ∉ _children o.
Proof.
  destruct (constructor_detached sample_ops sample_heap (TextCell "x") eq_refl)
    as (this & h' & Hnew & _ & _ & _ & Hd).
  assert (this = 7) as -> by (vm_compute in Hnew; congruence).
  exists h'. split; [exact Hnew|exact Hd].
Defined.
